(** * Retried: exponential backoff sequences and the retry operation

    A shallow embedding of [lib/retried.ts] (the timeout-sequence generator
    and the [operation] factory) and of [lib/retryOperation.ts] (the
    [RetryOperation] class), followed by the properties of the
    specification that were checked against it.

    Modelling conventions.
    - A JavaScript [number] is an exact rational ([Fin q]) or [Infinity];
      [NaN], negative infinity and the rounding of doubles are outside the
      model.  Counts ([retries], [attempts]) are natural numbers, [retries]
      may also be [Infinity].
    - The clock ([new Date().getTime()]) reads a positive number of
      milliseconds, and timer handles are positive, so both are truthy.
    - Optional properties are [option]s; [None] is an absent property.
    - The object literal used as a dictionary in [getMainError] is a [gmap]
      of its own properties.
    - Callbacks (the work function, the watchdog function) belong to the
      caller: they are names, and calling one is an event of the host log.
    - [Math.random()] is an oracle: the k-th draw of a call is [rng k].
    - [factor] and [minTimeout] are finite; [maxTimeout], [maxRetryTime]
      and the timeouts of an operation may be [Infinity]. *)

From Stdlib Require Import QArith Qround Qpower Qminmax ZArith Lia Lqa.
From stdpp Require Import gmap strings list sorting.

Local Open Scope Z_scope.
Local Open Scope nat_scope.

(** ** JavaScript values *)

Module JS.

Inductive number : Type :=
| Fin (q : Q)
| Infinity.

Definition of_Z (z : Z) : number := Fin (inject_Z z).

(** [a > b] *)
Definition num_gt (a b : number) : bool :=
  match a, b with
  | Fin x, Fin y => negb (Qle_bool x y)
  | Fin _, Infinity => false
  | Infinity, Fin _ => true
  | Infinity, Infinity => false
  end.

(** [a >= b] *)
Definition num_ge (a b : number) : bool :=
  match a, b with
  | Fin x, Fin y => Qle_bool y x
  | Fin _, Infinity => false
  | Infinity, _ => true
  end.

(** The order of the mathematical values, for statements. *)
Definition num_le (a b : number) : Prop :=
  match a, b with
  | Fin x, Fin y => (x <= y)%Q
  | _, Infinity => True
  | Infinity, Fin _ => False
  end.

(** Truthiness of a number: every number but zero. *)
Definition truthy (a : number) : bool :=
  match a with
  | Fin x => negb (Qeq_bool x 0)
  | Infinity => true
  end.

(** [Math.max] on finite numbers. *)
Definition Math_max (x y : Q) : Q := if Qle_bool x y then y else x.

(** [Math.min]. *)
Definition Math_min (a b : number) : number :=
  match a, b with
  | Fin x, Fin y => if Qle_bool x y then Fin x else Fin y
  | Fin x, Infinity => Fin x
  | Infinity, b => b
  end.

(** [Math.pow(x, n)] for a natural exponent. *)
Definition Math_pow (x : Q) (n : nat) : Q := (x ^ Z.of_nat n)%Q.

(** [Math.round]: the nearest integer, halves rounded up. *)
Definition Math_round (x : Q) : Z := Qfloor (x + (1 # 2))%Q.

(** The sign of [a - b], which is how [sort] reads the comparator
    [(a, b) => a - b]; the difference of two infinities is not a number
    and counts as zero. *)
Definition compare_sub (a b : number) : comparison :=
  match a, b with
  | Fin x, Fin y => (x ?= y)%Q
  | Fin _, Infinity => Lt
  | Infinity, Fin _ => Gt
  | Infinity, Infinity => Eq
  end.

(** [Array.prototype.sort] with a comparator.  The sort is stable, so on
    a consistent comparator its result is that of insertion sort. *)
Section Sort.
Context {A : Type} (compareFn : A -> A -> comparison).

Fixpoint sort_insert (x : A) (l : list A) : list A :=
  match l with
  | [] => [x]
  | y :: l' =>
      match compareFn x y with
      | Gt => y :: sort_insert x l'
      | _ => x :: y :: l'
      end
  end.

Definition sort (l : list A) : list A := foldr sort_insert [] l.
End Sort.

(** An [Error] object. *)
Record Error : Type := mkError { message : string; stack : string }.

(** [new Error(msg)] *)
Definition new_Error (msg : string) : Error :=
  {| message := msg; stack := "" |}.

(** How a call ends: it returns a value or throws. *)
Inductive completion (A : Type) : Type :=
| Return (a : A)
| Throw (e : Error).
Arguments Return {A} a.
Arguments Throw {A} e.

End JS.

Import JS.

(** ** The host: timers and the log of what the caller observes *)

Module Host.

(** The functions handed to [setTimeout] by [RetryOperation]. *)
Inductive callback : Type :=
| Resolve
    (** [resolve], of the promise [retry] awaits *)
| AttemptWatchdog (operationTimeoutFn : string)
    (** [() => timeoutOptions.operationTimeoutFn(this.attempts)] *)
| RetryWatchdog.
    (** [() => self.operationTimeoutFn!(this.attempts)] *)

Record timer : Type := mkTimer {
  timer_callback : callback;
  timer_delay : option number   (* [None]: the delay passed is [undefined] *)
}.

Inductive event : Type :=
| Work (fn : string) (attempts : nat)       (* [fn(attempts)] was called *)
| Delayed (delay : option number)           (* [retry] waited for its delay *)
| Watchdog (fn : string) (attempts : nat)   (* a watchdog function was called *)
| Uncaught (e : Error).                     (* a timer callback threw *)

Record host : Type := mkHost {
  pending : gmap positive timer;
  next_handle : positive;
  log : list event
}.

Definition boot : host :=
  {| pending := ∅; next_handle := 1%positive; log := [] |}.

Definition setTimeout (cb : callback) (delay : option number) (h : host)
    : positive * host :=
  (next_handle h,
   {| pending := <[next_handle h := mkTimer cb delay]> (pending h);
      next_handle := Pos.succ (next_handle h);
      log := log h |}).

(** [clearTimeout(handle)]; an [undefined] or stale handle clears nothing. *)
Definition clearTimeout (handle : option positive) (h : host) : host :=
  match handle with
  | Some id =>
      {| pending := delete id (pending h);
         next_handle := next_handle h;
         log := log h |}
  | None => h
  end.

(** The pending timers once [handle] is cleared. *)
Definition delete_handle (handle : option positive) (timers : gmap positive timer)
    : gmap positive timer :=
  match handle with
  | Some id => delete id timers
  | None => timers
  end.

Definition record (e : event) (h : host) : host :=
  {| pending := pending h; next_handle := next_handle h; log := log h ++ [e] |}.

End Host.

Import Host.

(** ** The retry operation ([lib/retryOperation.ts]) *)

Module RetryOperation.

Record options_t : Type := mkOpts {
  forever : bool;
  opt_maxRetryTime : number
}.

Record t : Type := mk {
  attempts : nat;
  errors : list Error;
  options : options_t;
  originalTimeouts : list number;
  timeouts : list number;
  timeout : option positive;
  operationTimeout : option number;
  operationTimeoutFn : option string;
  operationStart : option positive;
  timer : option positive;
  cachedTimeouts : option (list number);
  maxRetryTime : number;
  fn : option string
}.

Definition set_attempts (v : nat) (s : t) : t :=
  mk v (errors s) (options s) (originalTimeouts s) (timeouts s) (timeout s)
     (operationTimeout s) (operationTimeoutFn s) (operationStart s) (timer s)
     (cachedTimeouts s) (maxRetryTime s) (fn s).

Definition set_errors (v : list Error) (s : t) : t :=
  mk (attempts s) v (options s) (originalTimeouts s) (timeouts s) (timeout s)
     (operationTimeout s) (operationTimeoutFn s) (operationStart s) (timer s)
     (cachedTimeouts s) (maxRetryTime s) (fn s).

Definition set_timeouts (v : list number) (s : t) : t :=
  mk (attempts s) (errors s) (options s) (originalTimeouts s) v (timeout s)
     (operationTimeout s) (operationTimeoutFn s) (operationStart s) (timer s)
     (cachedTimeouts s) (maxRetryTime s) (fn s).

Definition set_timeout (v : option positive) (s : t) : t :=
  mk (attempts s) (errors s) (options s) (originalTimeouts s) (timeouts s) v
     (operationTimeout s) (operationTimeoutFn s) (operationStart s) (timer s)
     (cachedTimeouts s) (maxRetryTime s) (fn s).

Definition set_watchdog (d : option number) (w : option string) (s : t) : t :=
  mk (attempts s) (errors s) (options s) (originalTimeouts s) (timeouts s) (timeout s)
     d w (operationStart s) (timer s)
     (cachedTimeouts s) (maxRetryTime s) (fn s).

Definition set_timer (v : option positive) (s : t) : t :=
  mk (attempts s) (errors s) (options s) (originalTimeouts s) (timeouts s) (timeout s)
     (operationTimeout s) (operationTimeoutFn s) (operationStart s) v
     (cachedTimeouts s) (maxRetryTime s) (fn s).

Definition set_cachedTimeouts (v : option (list number)) (s : t) : t :=
  mk (attempts s) (errors s) (options s) (originalTimeouts s) (timeouts s) (timeout s)
     (operationTimeout s) (operationTimeoutFn s) (operationStart s) (timer s)
     v (maxRetryTime s) (fn s).

Definition set_started (f : string) (now : positive) (s : t) : t :=
  mk (attempts s) (errors s) (options s) (originalTimeouts s) (timeouts s) (timeout s)
     (operationTimeout s) (operationTimeoutFn s) (Some now) (timer s)
     (cachedTimeouts s) (maxRetryTime s) (Some f).

(** [new RetryOperation(timeouts, options)] *)
Definition new (timeouts : list number) (options : options_t) : t :=
  {| originalTimeouts := timeouts;
     timeouts := timeouts;
     options := options;
     maxRetryTime := opt_maxRetryTime options;
     errors := [];
     attempts := 1;
     cachedTimeouts := if forever options then Some timeouts else None;
     timeout := None;
     operationTimeout := None;
     operationTimeoutFn := None;
     operationStart := None;
     timer := None;
     fn := None |}.

(** [reset()] *)
Definition reset (s : t) : t :=
  set_timeouts (originalTimeouts s) (set_attempts 1 s).

(** [stop()] *)
Definition stop (s : t) (h : host) : t * host :=
  let h := match timeout s with Some _ => clearTimeout (timeout s) h | None => h end in
  let h := match timer s with Some _ => clearTimeout (timer s) h | None => h end in
  (set_cachedTimeouts None (set_timeouts [] s), h).

(** The second argument of [attempt]. *)
Record timeoutOptions_t : Type := mkTimeoutOptions {
  to_timeout : option number;
  to_operationTimeoutFn : string
}.

(** [timeoutOptions && timeoutOptions.timeout && timeoutOptions.operationTimeoutFn] *)
Definition watchdog_given (timeoutOptions : option timeoutOptions_t)
    : option (number * string) :=
  match timeoutOptions with
  | Some o =>
      match to_timeout o with
      | Some d => if truthy d then Some (d, to_operationTimeoutFn o) else None
      | None => None
      end
  | None => None
  end.

(** [attempt(fn, timeoutOptions)], called when the clock reads [now].
    The handle of the timer it sets is dropped. *)
Definition attempt (f : string) (timeoutOptions : option timeoutOptions_t)
    (now : positive) (s : t) (h : host) : t * host :=
  let s := set_started f now s in
  let h := record (Work f (attempts s)) h in
  match watchdog_given timeoutOptions with
  | Some (d, w) =>
      (set_watchdog (Some d) (Some w) s,
       snd (setTimeout (AttemptWatchdog w) (Some d) h))
  | None => (s, h)
  end.

(** [succeed()] *)
Definition succeed (s : t) (h : host) : t * host :=
  (s, clearTimeout (timeout s) h).

(** The guard [err && this.operationStart &&
    currentTime - this.operationStart >= this.maxRetryTime] of [retry];
    [err] is an [Error] object, which is truthy. *)
Definition budget_exceeded (s : t) (currentTime : positive) : bool :=
  match operationStart s with
  | Some start => num_ge (of_Z (Z.pos currentTime - Z.pos start)) (maxRetryTime s)
  | None => false
  end.

(** [retry(err)] up to its [await]. *)
Inductive suspension : Type :=
| Returned (result : bool) (s : t) (h : host)
    (** the call returned before waiting *)
| Awaiting (delay : option number) (s : t) (h : host).
    (** the call waits for the timer [self.timer], set for [delay] *)

Definition await_delay (delay : option number) (s : t) (h : host) : suspension :=
  let (handle, h) := setTimeout Resolve delay h in
  Awaiting delay (set_timer (Some handle) s) h.

Definition retry_begin (err : Error) (currentTime : positive) (s : t) (h : host)
    : suspension :=
  let h := match timeout s with Some _ => clearTimeout (timeout s) h | None => h end in
  if budget_exceeded s currentTime
  then
    Returned false
      (set_errors (new_Error "RetryOperation timeout occurred" :: (errors s ++ [err])) s) h
  else
    let s := set_errors (errors s ++ [err]) s in
    match timeouts s with
    | timeout :: rest => await_delay (Some timeout) (set_timeouts rest s) h
    | [] =>
        match cachedTimeouts s with
        | Some cached =>
            let s := set_errors (drop (length (errors s) - 1) (errors s)) s in
            await_delay (last cached) s h
        | None => Returned false s h
        end
    end.

(** [retry(err)] from its [await] on, once the delay timer has fired. *)
Definition retry_resume (s : t) (h : host) : completion bool * t * host :=
  let s := set_attempts (S (attempts s)) s in
  match fn s with
  | None => (Throw (new_Error "this.fn is not a function"), s, h)
  | Some f =>
      let h := record (Work f (attempts s)) h in
      let (handle, h) := setTimeout RetryWatchdog (operationTimeout s) h in
      (Return true, set_timeout (Some handle) s, h)
  end.

(** A whole call of [retry(err)] that nothing interleaves with: when it
    waits, its delay timer fires and it resumes. *)
Definition retry (err : Error) (currentTime : positive) (s : t) (h : host)
    : completion bool * t * host :=
  match retry_begin err currentTime s h with
  | Returned b s h => (Return b, s, h)
  | Awaiting delay s h =>
      retry_resume s (record (Delayed delay) (clearTimeout (timer s) h))
  end.

(** The timer [handle] fires, if it is pending.  [Resolve] resumes the
    waiting [retry], which [retry_resume] describes. *)
Definition fire (handle : positive) (s : t) (h : host) : host :=
  match pending h !! handle with
  | None => h
  | Some tm =>
      let h := clearTimeout (Some handle) h in
      match timer_callback tm with
      | Resolve => h
      | AttemptWatchdog w => record (Watchdog w (attempts s)) h
      | RetryWatchdog =>
          match operationTimeoutFn s with
          | Some w => record (Watchdog w (attempts s)) h
          | None =>
              record (Uncaught (new_Error "self.operationTimeoutFn is not a function")) h
          end
      end
  end.



End RetryOperation.

(** ** The timeout-sequence generator ([lib/retried.ts]) *)

Module Retried.

(** The [retries] option: a count, or [Infinity]. *)
Inductive retries_t : Type :=
| Retries (n : nat)
| RetriesInfinity.

(** [OperationOptions], which extends [TimeoutsOptions], which extends
    [CreateTimeoutOptions]; one record, every property optional. *)
Record OperationOptions : Type := mkOptions {
  factor : option Q;
  minTimeout : option Q;
  maxTimeout : option number;
  randomize : option bool;
  retries : option retries_t;
  forever : option bool;
  maxRetryTime : option number
}.

(** [createTimeout(attempt, params)]; [draw] is what [Math.random()]
    returns if it is called.  A property of [{...defaults, ...params}] is
    the one of [params] when present, and the default otherwise. *)
Definition createTimeout (attempt : nat) (params : OperationOptions) (draw : Q) : number :=
  let o_factor := default 2%Q (factor params) in
  let o_minTimeout := default 1000%Q (minTimeout params) in
  let o_maxTimeout := default Infinity (maxTimeout params) in
  let o_randomize := default false (randomize params) in
  let random := if o_randomize then (draw + 1)%Q else 1%Q in
  let timeout :=
    Math_round (random * Math_max o_minTimeout 1 * Math_pow o_factor attempt)%Q in
  Math_min (of_Z timeout) o_maxTimeout.

(** The object [options] of [timeouts]: [params] spread over the
    defaults of [retries], [minTimeout], [maxTimeout] and [forever]. *)
Definition timeouts_options (params : OperationOptions) : OperationOptions :=
  {| factor := factor params;
     minTimeout := Some (default 1000%Q (minTimeout params));
     maxTimeout := Some (default Infinity (maxTimeout params));
     randomize := randomize params;
     retries := Some (default (Retries 10) (retries params));
     forever := Some (default false (forever params));
     maxRetryTime := maxRetryTime params |}.

(** [i < options.retries] *)
Definition lt_retries (i : nat) (r : retries_t) : bool :=
  match r with
  | Retries n => i <? n
  | RetriesInfinity => true
  end.

(** The argument [options.retries] of the extra [createTimeout] call;
    the call is made only when the loop pushed nothing, which a count
    allows at zero only. *)
Definition retries_index (r : retries_t) : nat :=
  match r with
  | Retries n => n
  | RetriesInfinity => 0
  end.

(** The [for] loop of [timeouts], from index [i] with [acc] pushed so
    far; [None] when [fuel] iterations did not reach the exit. *)
Fixpoint timeouts_loop (fuel : nat) (rng : nat -> Q) (options : OperationOptions)
    (r : retries_t) (i : nat) (acc : list number) : option (list number) :=
  match fuel with
  | O => None
  | S fuel' =>
      if lt_retries i r
      then timeouts_loop fuel' rng options r (S i)
             (acc ++ [createTimeout i options (rng i)])
      else Some acc
  end.

(** [timeouts(params)] *)
Definition timeouts (fuel : nat) (rng : nat -> Q) (params : OperationOptions)
    : option (completion (list number)) :=
  let options := timeouts_options params in
  let o_retries := default (Retries 10) (retries options) in
  let o_minTimeout := default 1000%Q (minTimeout options) in
  let o_maxTimeout := default Infinity (maxTimeout options) in
  let o_forever := default false (forever options) in
  if num_gt (Fin o_minTimeout) o_maxTimeout
  then Some (Throw (new_Error "minTimeout is greater than maxTimeout"))
  else
    match timeouts_loop fuel rng options o_retries 0 [] with
    | None => None
    | Some pushed =>
        let pushed :=
          if o_forever && Nat.eqb (length pushed) 0
          then pushed ++ [createTimeout (retries_index o_retries) options
                            (rng (length pushed))]
          else pushed in
        Some (Return (sort compare_sub pushed))
    end.

(** [operation(options)] *)
Definition operation (fuel : nat) (rng : nat -> Q) (options : OperationOptions)
    : option (completion RetryOperation.t) :=
  match timeouts fuel rng options with
  | None => None
  | Some (Throw e) => Some (Throw e)
  | Some (Return ts) =>
      Some (Return (RetryOperation.new ts
        {| RetryOperation.forever :=
             default false (forever options)
             || match retries options with
                | Some RetriesInfinity => true
                | _ => false
                end;
           RetryOperation.opt_maxRetryTime :=
             match maxRetryTime options with
             | Some m => if truthy m then m else Infinity
             | None => Infinity
             end |}))
  end.

End Retried.

Import Retried.

(** ** The calls a caller makes on one operation

    The states an operation can be in are those a sequence of calls of its
    methods, and of firings of timers, leads to from a new operation.  A
    call of [retry] may run as a whole or in its two halves, with other
    calls in between; every order is allowed, also those a caller should
    not produce. *)

Module Session.

Inductive call : Type :=
| CallReset
| CallStop
| CallAttempt (fn : string) (timeoutOptions : option RetryOperation.timeoutOptions_t)
    (now : positive)
| CallSucceed
| CallRetry (err : Error) (now : positive)
    (** a whole call of [retry] *)
| RetryBegins (err : Error) (now : positive)
    (** [retry] is called and runs up to its [await], or to its [return] *)
| RetryResumes
    (** a waiting [retry] runs on from its [await] *)
| TimerFires (handle : positive).

Definition exec (c : call) (sh : RetryOperation.t * host) : RetryOperation.t * host :=
  let (s, h) := sh in
  match c with
  | CallReset => (RetryOperation.reset s, h)
  | CallStop => RetryOperation.stop s h
  | CallAttempt f timeoutOptions now => RetryOperation.attempt f timeoutOptions now s h
  | CallSucceed => RetryOperation.succeed s h
  | CallRetry err now =>
      let '(_, s, h) := RetryOperation.retry err now s h in (s, h)
  | RetryBegins err now =>
      match RetryOperation.retry_begin err now s h with
      | RetryOperation.Returned _ s h => (s, h)
      | RetryOperation.Awaiting _ s h => (s, h)
      end
  | RetryResumes =>
      let '(_, s, h) := RetryOperation.retry_resume s h in (s, h)
  | TimerFires handle => (s, RetryOperation.fire handle s h)
  end.

Definition run (calls : list call) (sh : RetryOperation.t * host)
    : RetryOperation.t * host :=
  foldl (fun sh c => exec c sh) sh calls.

(** Calls of [retry] one after the other, with what each returned. *)
Fixpoint retry_all (calls : list (Error * positive)) (s : RetryOperation.t) (h : host)
    : list (completion bool) * RetryOperation.t * host :=
  match calls with
  | [] => ([], s, h)
  | (err, now) :: calls =>
      let '(r, s, h) := RetryOperation.retry err now s h in
      let '(rs, s, h) := retry_all calls s h in
      (r :: rs, s, h)
  end.


Definition is_reset (c : call) : bool :=
  match c with
  | CallReset => true
  | _ => false
  end.

End Session.

Import Session.

(** ** The notions of the specification *)

Module Spec.


(** A delay is still available: a timeout remains, or forever mode (the
    cache) supplies one. *)
Definition delay_available (s : RetryOperation.t) : bool :=
  match RetryOperation.timeouts s, RetryOperation.cachedTimeouts s with
  | [], None => false
  | _, _ => true
  end.




End Spec.

Import Spec.

(** ** Invariants and the states used below *)

Module Invariants.

Import RetryOperation.

(** What every method keeps: the snapshot of the timeouts, the budget, that
    a started clock comes with a work function, and that the cache, while it
    is there, is the snapshot. *)
Record invariant (ts : list number) (budget : number) (s : t) : Prop := {
  inv_original : originalTimeouts s = ts;
  inv_budget : maxRetryTime s = budget;
  inv_started : is_Some (operationStart s) -> is_Some (fn s);
  inv_cached : cachedTimeouts s = None \/ cachedTimeouts s = Some ts
}.


(** An operation whose first [retry] is waiting for its delay of 1000 ms. *)
Definition waiting_retry : suspension :=
  let sh := attempt "work" None 1000 (new [of_Z 1000; of_Z 2000] (mkOpts false Infinity)) boot in
  retry_begin (mkError "E1" "") 2000 sh.1 sh.2.

(** The timeouts left are a tail of the original sequence, and the
    attempts are counted from 1. *)
Definition tail_of_original (ts : list number) (s : t) : Prop :=
  originalTimeouts s = ts /\ 1 <= attempts s /\ exists k, timeouts s = drop k ts.

(** Handles are issued in increasing order, and of the timers of [retry]
    only the watchdog whose handle the operation holds is pending. *)
Definition timers_kept (s : t) (h : host) : Prop :=
  (forall id tm, pending h !! id = Some tm -> (id < next_handle h)%positive) /\
  (forall id, timeout s = Some id -> (id < next_handle h)%positive) /\
  (forall id tm, pending h !! id = Some tm ->
     match timer_callback tm with
     | RetryWatchdog => timeout s = Some id
     | Resolve => False
     | AttemptWatchdog _ => True
     end).

Definition whole_call (c : call) : bool :=
  match c with
  | RetryBegins _ _ | RetryResumes => false
  | _ => true
  end.

End Invariants.

Import Invariants.

(** ** What the calls leave behind *)

Module Traces.

(** The entries [timeouts] pushes, before it sorts them. *)
Definition pushed_entries (rng : nat -> Q) (params : OperationOptions) (n : nat)
    : list number :=
  map (fun j => createTimeout j params (rng j)) (seq 0 n)
  ++ (if default false (Retried.forever params) && Nat.eqb n 0
      then [createTimeout n params (rng n)] else []).

(** What retries that each find a timeout add to the log: the delay
    waited for, then the call of the work function with the next attempt
    number. *)
Fixpoint retry_trace (fn : string) (attempts : nat) (delays : list number)
    : list event :=
  match delays with
  | [] => []
  | d :: delays =>
      Delayed (Some d) :: Work fn (S attempts) :: retry_trace fn (S attempts) delays
  end.


End Traces.

Import Traces.

(** * Properties *)

(** ** Numbers *)

Section NumberFacts.

Lemma num_le_refl a : num_le a a.
Proof. destruct a; simpl; [apply Qle_refl | exact I]. Qed.

Lemma num_le_trans a b c : num_le a b -> num_le b c -> num_le a c.
Proof.
  destruct a, b, c; simpl; try tauto.
  apply Qle_trans.
Qed.

Lemma num_gt_false_le a b : num_gt a b = false -> num_le a b.
Proof.
  destruct a, b; simpl; try done.
  intros H. apply negb_false_iff, Qle_bool_iff in H. exact H.
Qed.

Lemma num_ge_true_le a b : num_ge a b = true <-> num_le b a.
Proof.
  destruct a, b; simpl; try (split; done).
  apply Qle_bool_iff.
Qed.




Lemma Math_max_ge_l x y : (x <= Math_max x y)%Q.
Proof.
  unfold Math_max. destruct (Qle_bool x y) eqn:E.
  - by apply Qle_bool_iff.
  - apply Qle_refl.
Qed.

Lemma Math_max_ge_r x y : (y <= Math_max x y)%Q.
Proof.
  unfold Math_max. destruct (Qle_bool x y) eqn:E.
  - apply Qle_refl.
  - apply Qlt_le_weak, Qnot_le_lt. intros H.
    apply Qle_bool_iff in H. congruence.
Qed.


Lemma Math_round_comp x y : (x == y)%Q -> Math_round x = Math_round y.
Proof.
  intros H. unfold Math_round. apply Qfloor_comp. by rewrite H.
Qed.

Lemma Math_round_inject_Z z : Math_round (inject_Z z) = z.
Proof.
  unfold Math_round, Qfloor, inject_Z, Qplus. simpl.
  rewrite Z.mul_1_r.
  replace (z * 2 + 1)%Z with (1 + z * 2)%Z by lia.
  rewrite Z.div_add by lia. reflexivity.
Qed.

Lemma Math_pow_0 x : Math_pow x 0 = 1%Q.
Proof. reflexivity. Qed.

Lemma Math_pow_S x n : (Math_pow x (S n) == x * Math_pow x n)%Q.
Proof.
  unfold Math_pow. rewrite Nat2Z.inj_succ, <- Z.add_1_l.
  rewrite Qpower_plus' by lia. reflexivity.
Qed.


End NumberFacts.

(** ** Sorting with the comparator [(a, b) => a - b] *)

Section SortFacts.



Lemma sort_insert_Permutation {A} (c : A -> A -> comparison) x l :
  sort_insert c x l ≡ₚ x :: l.
Proof.
  induction l as [|y l IH]; simpl; [done|].
  destruct (c x y); try done.
  rewrite IH. apply Permutation_swap.
Qed.

Lemma sort_Permutation {A} (c : A -> A -> comparison) l : sort c l ≡ₚ l.
Proof.
  induction l as [|x l IH]; simpl; [done|].
  unfold sort in *. simpl. rewrite sort_insert_Permutation. by rewrite IH.
Qed.




End SortFacts.

(** ** The generator *)

Section GeneratorFacts.

Variable rng : nat -> Q.


(** With a count of [n] the loop exits after [n - i] more passes. *)
Lemma timeouts_loop_finite options n fuel : forall i acc,
  i <= n -> n - i < fuel ->
  timeouts_loop fuel rng options (Retries n) i acc
  = Some (acc ++ map (fun j => createTimeout j options (rng j)) (seq i (n - i))).
Proof.
  induction fuel as [|fuel IH]; intros i acc Hi Hfuel; [lia|].
  simpl. destruct (i <? n) eqn:E.
  - apply Nat.ltb_lt in E.
    rewrite IH by lia.
    replace (n - i) with (S (n - S i)) by lia.
    simpl. by rewrite <- app_assoc.
  - apply Nat.ltb_ge in E.
    replace (n - i) with 0 by lia. simpl. by rewrite app_nil_r.
Qed.


(** [timeouts] in terms of the resolved properties. *)
Lemma timeouts_resolved fuel params :
  timeouts fuel rng params =
  let options := timeouts_options params in
  let o_retries := default (Retries 10) (retries params) in
  let o_forever := default false (forever params) in
  if num_gt (Fin (default 1000%Q (minTimeout params)))
            (default Infinity (maxTimeout params))
  then Some (Throw (new_Error "minTimeout is greater than maxTimeout"))
  else
    match timeouts_loop fuel rng options o_retries 0 [] with
    | None => None
    | Some pushed =>
        Some (Return (sort compare_sub
          (if o_forever && Nat.eqb (length pushed) 0
           then pushed ++ [createTimeout (retries_index o_retries) options
                             (rng (length pushed))]
           else pushed)))
    end.
Proof. reflexivity. Qed.

Lemma num_le_gt_false a b : num_le a b -> num_gt a b = false.
Proof.
  destruct a as [x|], b as [y|]; simpl; try done.
  intros H. apply negb_false_iff. by apply Qle_bool_iff.
Qed.

(** A [minTimeout] above [maxTimeout] is refused before the loop runs. *)
Lemma timeouts_invalid_throws fuel params :
  num_gt (Fin (default 1000%Q (minTimeout params)))
         (default Infinity (maxTimeout params)) = true ->
  timeouts fuel rng params
  = Some (Throw (new_Error "minTimeout is greater than maxTimeout")).
Proof. intros H. rewrite timeouts_resolved. cbv zeta. by rewrite H. Qed.


Lemma timeouts_finite fuel params n :
  default (Retries 10) (retries params) = Retries n ->
  num_le (Fin (default 1000%Q (minTimeout params)))
         (default Infinity (maxTimeout params)) ->
  n < fuel ->
  timeouts fuel rng params =
  Some (Return (sort compare_sub
    (let pushed :=
       map (fun j => createTimeout j (timeouts_options params) (rng j)) (seq 0 n) in
     if default false (forever params) && Nat.eqb n 0
     then pushed ++ [createTimeout n (timeouts_options params) (rng n)]
     else pushed))).
Proof.
  intros Hr Hv Hfuel. rewrite timeouts_resolved. cbv zeta.
  rewrite (num_le_gt_false _ _ Hv), Hr.
  rewrite timeouts_loop_finite by lia.
  rewrite Nat.sub_0_r. simpl.
  by rewrite length_map, length_seq.
Qed.

(** A loop that exits was given a count, and pushed one entry per index. *)
Lemma timeouts_loop_inv options r fuel : forall i acc l,
  timeouts_loop fuel rng options r i acc = Some l ->
  exists n, r = Retries n /\
    l = acc ++ map (fun j => createTimeout j options (rng j)) (seq i (n - i)).
Proof.
  induction fuel as [|fuel IH]; intros i acc l H; [done|].
  simpl in H. destruct r as [n|]; simpl in H.
  - exists n. split; [done|].
    destruct (i <? n) eqn:E.
    + apply Nat.ltb_lt in E.
      apply IH in H as (n' & [= <-] & ->).
      replace (n - i) with (S (n - S i)) by lia.
      simpl. by rewrite <- app_assoc.
    + apply Nat.ltb_ge in E. injection H as <-.
      replace (n - i) with 0 by lia. simpl. by rewrite app_nil_r.
  - apply IH in H as (n' & [=] & _).
Qed.


Lemma timeouts_finite_length params n :
  length (sort compare_sub
    (let pushed :=
       map (fun j => createTimeout j (timeouts_options params) (rng j)) (seq 0 n) in
     if default false (Retried.forever params) && Nat.eqb n 0
     then pushed ++ [createTimeout n (timeouts_options params) (rng n)]
     else pushed))
  = (if default false (Retried.forever params) && Nat.eqb n 0 then 1 else n).
Proof.
  cbv zeta. rewrite sort_Permutation.
  destruct (default false (Retried.forever params) && Nat.eqb n 0) eqn:E.
  - apply andb_true_iff in E as [_ E]. apply Nat.eqb_eq in E. by subst.
  - by rewrite length_map, length_seq.
Qed.

End GeneratorFacts.




(** ** The delay of one entry *)

Section DelayFacts.


Lemma createTimeout_not_randomized attempt params draw :
  default false (randomize params) = false ->
  createTimeout attempt params draw =
  Math_min
    (of_Z (Math_round
       (Math_max (default 1000%Q (minTimeout params)) 1 *
        Math_pow (default 2%Q (factor params)) attempt)%Q))
    (default Infinity (maxTimeout params)).
Proof.
  intros Hr. unfold createTimeout. rewrite Hr. cbv zeta.
  f_equal. unfold of_Z. do 2 f_equal.
  apply Math_round_comp. ring.
Qed.


End DelayFacts.



(** ** The retry operation *)

Section OperationFacts.

Import RetryOperation.

Lemma new_invariant ts opts : invariant ts (opt_maxRetryTime opts) (new ts opts).
Proof.
  split; simpl; try done.
  destruct (forever opts); auto.
Qed.

Ltac retry_cases :=
  unfold retry, retry_begin, await_delay, retry_resume; simpl;
  repeat match goal with
    | |- context [budget_exceeded ?s ?now] => destruct (budget_exceeded s now) eqn:?; simpl
    | |- context [match timeouts ?s with _ => _ end] => destruct (timeouts s) eqn:?; simpl
    | |- context [match cachedTimeouts ?s with _ => _ end] =>
        destruct (cachedTimeouts s) eqn:?; simpl
    | |- context [match fn ?s with _ => _ end] => destruct (fn s) eqn:?; simpl
    end.

Lemma retry_invariant ts budget err now s h :
  invariant ts budget s -> invariant ts budget (retry err now s h).1.2.
Proof.
  intros Hinv. retry_cases; destruct Hinv as [H1 H2 H3 H4]; split; simpl; auto.
Qed.

Lemma exec_invariant ts budget c s h :
  invariant ts budget s -> invariant ts budget (exec c (s, h)).1.
Proof.
  intros Hinv. destruct c as [| |f topts now| |err now|err now| |handle]; simpl.
  - destruct Hinv; split; simpl; auto.
  - destruct Hinv; split; simpl; auto.
  - unfold attempt. destruct (watchdog_given topts) as [[d w]|];
      destruct Hinv; split; simpl; auto.
  - exact Hinv.
  - pose proof (retry_invariant ts budget err now s h Hinv) as H.
    destruct (retry err now s h) as [[r s'] h']. exact H.
  - retry_cases; destruct Hinv; split; simpl; auto.
  - retry_cases; destruct Hinv; split; simpl; auto.
  - exact Hinv.
Qed.

(** A property that the calls allowed by [ok] keep holds after any
    sequence of such calls. *)
Lemma run_keeps (P : t -> Prop) (ok : call -> bool) :
  (forall c s h, ok c = true -> P s -> P (exec c (s, h)).1) ->
  forall calls sh, forallb ok calls = true -> P sh.1 -> P (run calls sh).1.
Proof.
  intros Hstep. induction calls as [|c calls IH]; intros [s h] Hok HP; [done|].
  simpl in Hok. apply andb_true_iff in Hok as [Hc Hok].
  unfold run. simpl. apply IH; [done|].
  pose proof (Hstep c s h Hc HP) as H.
  destruct c; simpl in *; exact H.
Qed.

Lemma run_invariant ts opts calls h :
  invariant ts (opt_maxRetryTime opts) (run calls (new ts opts, h)).1.
Proof.
  apply (run_keeps (invariant ts (opt_maxRetryTime opts)) (fun _ => true)).
  - intros c s h' _. apply exec_invariant.
  - induction calls; simpl; auto.
  - apply new_invariant.
Qed.


(** C9.  In every state an operation can reach, [reset] sets [attempts] to
    1 and [timeouts] to the original sequence, the one the operation was
    built with, and leaves [errors] and [originalTimeouts] as they were. *)
Theorem reset_restores (ts : list number) (opts : options_t) (calls : list call) (h : host) :
  let s := (run calls (new ts opts, h)).1 in
  attempts (reset s) = 1 /\
  timeouts (reset s) = originalTimeouts s /\
  timeouts (reset s) = ts /\
  errors (reset s) = errors s /\
  originalTimeouts (reset s) = originalTimeouts s.
Proof.
  intros s. destruct (run_invariant ts opts calls h) as [Ho _ _ _].
  fold s in Ho. repeat split; simpl; done.
Qed.

(** C2.  When the clock was started and the time elapsed since then is at
    least [maxRetryTime], [retry(err)] returns [false] without waiting or
    calling the work function; [errors] then holds a new error, whose
    message tells of the timeout, at index 0, then the errors it held, then
    [err]; the remaining timeouts, however many, are not touched. *)
Theorem retry_budget_exceeded (err : Error) (now start : positive) (s : t) (h : host) :
  operationStart s = Some start ->
  num_le (maxRetryTime s) (of_Z (Z.pos now - Z.pos start)) ->
  exists s' h' marker,
    retry err now s h = (Return false, s', h') /\
    errors s' = marker :: errors s ++ [err] /\
    errors s' !! 0 = Some marker /\
    message marker = "RetryOperation timeout occurred" /\
    timeouts s' = timeouts s /\
    cachedTimeouts s' = cachedTimeouts s /\
    attempts s' = attempts s /\
    log h' = log h.
Proof.
  intros Hstart Hle.
  assert (Hb : budget_exceeded s now = true).
  { unfold budget_exceeded. rewrite Hstart. by apply num_ge_true_le. }
  unfold retry, retry_begin. rewrite Hb.
  eexists _, _, _. split; [reflexivity|].
  repeat split; simpl.
  by destruct (timeout s).
Qed.

(** A budget of 500 ms, 600 ms after the start, two timeouts remaining. *)
Lemma retry_budget_exceeded_witness :
  exists s' h' marker,
    retry (mkError "ECONNRESET" "") 1600
      (set_started "work" 1000 (new [of_Z 1000; of_Z 2000] (mkOpts false (of_Z 500))))
      boot
    = (Return false, s', h') /\
    errors s' = marker :: [] ++ [mkError "ECONNRESET" ""] /\
    errors s' !! 0 = Some marker /\
    message marker = "RetryOperation timeout occurred" /\
    timeouts s' = [of_Z 1000; of_Z 2000] /\
    cachedTimeouts s' = None /\
    attempts s' = 1 /\
    log h' = [].
Proof.
  apply (retry_budget_exceeded (mkError "ECONNRESET" "") 1600 1000
           (set_started "work" 1000 (new [of_Z 1000; of_Z 2000] (mkOpts false (of_Z 500))))
           boot).
  - reflexivity.
  - vm_compute. discriminate.
Defined.

(** *** What [retry] returns *)

Lemma retry_result_within_budget err now s h :
  is_Some (fn s) ->
  budget_exceeded s now = false ->
  (retry err now s h).1.1 = Return (delay_available s).
Proof.
  intros [f Hf] Hb. unfold delay_available.
  retry_cases; congruence.
Qed.

(** A call that finds a timeout takes it and starts the next attempt. *)
Lemma retry_takes_timeout err now s h f d rest :
  fn s = Some f ->
  budget_exceeded s now = false ->
  timeouts s = d :: rest ->
  exists s' h',
    retry err now s h = (Return true, s', h') /\
    timeouts s' = rest /\
    fn s' = Some f /\
    cachedTimeouts s' = cachedTimeouts s /\
    operationStart s' = operationStart s /\
    maxRetryTime s' = maxRetryTime s.
Proof.
  intros Hf Hb Ht. unfold retry, retry_begin, await_delay, retry_resume.
  rewrite Hb. simpl. rewrite Ht. simpl. rewrite Hf.
  eexists _, _. split; [reflexivity|]. by simpl.
Qed.

Lemma clear_if_set (handle : option positive) h :
  match handle with Some _ => clearTimeout handle h | None => h end
  = clearTimeout handle h.
Proof. by destruct handle. Qed.

(** A call that finds neither a timeout nor the cache returns [false], and
    nothing happens at the host but the clearing of the watchdog. *)
Lemma retry_nothing_left err now s h :
  timeouts s = [] ->
  cachedTimeouts s = None ->
  exists s',
    retry err now s h = (Return false, s', clearTimeout (timeout s) h) /\
    timeouts s' = [] /\
    cachedTimeouts s' = None /\
    timeout s' = timeout s.
Proof.
  intros Ht Hc. unfold retry, retry_begin.
  rewrite clear_if_set.
  destruct (budget_exceeded s now); simpl; rewrite ?Ht, ?Hc;
    eexists; (split; [reflexivity|]); by simpl.
Qed.

Lemma budget_exceeded_same s s' now :
  operationStart s' = operationStart s ->
  maxRetryTime s' = maxRetryTime s ->
  budget_exceeded s' now = budget_exceeded s now.
Proof. intros H1 H2. unfold budget_exceeded. by rewrite H1, H2. Qed.

(** Without forever mode, and within the budget, an operation with [n]
    timeouts left answers [n] times [true] and then [false]. *)
Lemma retry_all_exhausts calls : forall s h,
  is_Some (fn s) ->
  cachedTimeouts s = None ->
  Forall (fun c => budget_exceeded s c.2 = false) calls ->
  length calls = S (length (timeouts s)) ->
  (retry_all calls s h).1.1
  = replicate (length (timeouts s)) (Return true) ++ [Return false].
Proof.
  induction calls as [|[err now] calls IH]; intros s h [f Hf] Hc Hb Hlen; [done|].
  apply Forall_cons in Hb as [Hb Hbs]. simpl in Hb, Hlen.
  destruct (timeouts s) as [|d rest] eqn:Ht.
  - destruct calls; [|done].
    destruct (retry_nothing_left err now s h Ht Hc) as (s' & Hr & _).
    simpl. by rewrite Hr.
  - destruct (retry_takes_timeout err now s h f d rest Hf Hb Ht)
      as (s' & h' & Hr & Ht' & Hf' & Hc' & Hs' & Hm').
    simpl. rewrite Hr.
    specialize (IH s' h').
    destruct (retry_all calls s' h') as [[rs s''] h''].
    simpl in *. f_equal. rewrite Ht' in IH. apply IH.
    + by eexists.
    + congruence.
    + eapply Forall_impl; [exact Hbs|]. intros c Hcb.
      by rewrite (budget_exceeded_same s s').
    + lia.
Qed.

Lemma clearTimeout_twice id h : clearTimeout id (clearTimeout id h) = clearTimeout id h.
Proof.
  destruct id as [i|]; [|done].
  unfold clearTimeout. simpl. by rewrite delete_delete_eq.
Qed.

Lemma clearTimeout_swap i j h :
  clearTimeout i (clearTimeout j h) = clearTimeout j (clearTimeout i h).
Proof.
  destruct i as [i|], j as [j|]; try done.
  unfold clearTimeout. simpl. by rewrite delete_delete.
Qed.

(** After [stop], calls of [retry] return [false] and leave the host as
    it is: no timer is set, nothing is waited for, nothing is called. *)
Lemma retry_all_stopped calls : forall s h,
  timeouts s = [] ->
  cachedTimeouts s = None ->
  clearTimeout (timeout s) h = h ->
  exists s',
    retry_all calls s h = (replicate (length calls) (Return false), s', h).
Proof.
  induction calls as [|[err now] calls IH]; intros s h Ht Hc Hh.
  - by eexists.
  - destruct (retry_nothing_left err now s h Ht Hc) as (s' & Hr & Ht' & Hc' & Hto).
    simpl. rewrite Hr, Hh.
    destruct (IH s' h Ht' Hc') as (s'' & Hall); [by rewrite Hto|].
    rewrite Hall. by eexists.
Qed.

(** With a count for [retries] and enough fuel, [operation] returns an
    operation built on the sequence [timeouts] returns. *)
Lemma operation_returns rng options n fuel :
  num_le (Fin (default 1000%Q (Retried.minTimeout options)))
         (default Infinity (Retried.maxTimeout options)) ->
  default (Retries 10) (Retried.retries options) = Retries n ->
  n < fuel ->
  exists ts,
    Retried.timeouts fuel rng options = Some (Return ts) /\
    length ts = (if default false (Retried.forever options) && Nat.eqb n 0 then 1 else n) /\
    operation fuel rng options =
    Some (Return (new ts
      {| forever := default false (Retried.forever options);
         opt_maxRetryTime :=
           match Retried.maxRetryTime options with
           | Some m => if truthy m then m else Infinity
           | None => Infinity
           end |})).
Proof.
  intros Hv Hr Hfuel.
  pose proof (timeouts_finite rng fuel options n Hr Hv Hfuel) as Hts.
  eexists. split; [exact Hts|].
  split; [apply timeouts_finite_length|].
  unfold operation. rewrite Hts. do 3 f_equal.
  destruct (Retried.retries options) as [[m|]|]; simpl in *;
    try discriminate; by rewrite orb_false_r.
Qed.

Lemma attempt_started f topts now s h :
  fn (attempt f topts now s h).1 = Some f /\
  operationStart (attempt f topts now s h).1 = Some now /\
  timeouts (attempt f topts now s h).1 = timeouts s /\
  cachedTimeouts (attempt f topts now s h).1 = cachedTimeouts s /\
  maxRetryTime (attempt f topts now s h).1 = maxRetryTime s /\
  attempts (attempt f topts now s h).1 = attempts s.
Proof.
  unfold attempt. by destruct (watchdog_given topts) as [[d w]|].
Qed.

Lemma stop_stopped s h :
  timeouts (stop s h).1 = [] /\
  cachedTimeouts (stop s h).1 = None /\
  clearTimeout (timeout (stop s h).1) (stop s h).2 = (stop s h).2.
Proof.
  unfold stop. simpl. repeat split.
  rewrite !clear_if_set.
  by rewrite clearTimeout_swap, clearTimeout_twice.
Qed.

(** A stopped operation stays stopped until [reset] is called. *)
Lemma run_stays_stopped calls s h :
  forallb (fun c => negb (is_reset c)) calls = true ->
  timeouts (run calls (stop s h)).1 = [] /\
  cachedTimeouts (run calls (stop s h)).1 = None.
Proof.
  intros Hnr.
  apply (run_keeps (fun s => timeouts s = [] /\ cachedTimeouts s = None)
           (fun c => negb (is_reset c))); [| done | by destruct (stop_stopped s h) as (? & ? & _)].
  clear. intros c s h Hc [Ht Hc'].
  destruct c as [| |f topts now| |err now|err now| |handle]; simpl; try done.
  - unfold attempt. by destruct (watchdog_given topts) as [[d w]|].
  - destruct (retry_nothing_left err now s h Ht Hc') as (s' & -> & ? & ? & _). done.
  - unfold retry_begin.
    destruct (budget_exceeded s now); simpl; rewrite ?Ht, ?Hc'; by simpl.
  - unfold retry_resume. simpl. by destruct (fn s).
Qed.

(** C1.  For a started operation within its wall-clock budget, in any
    state it can reach, [retry] returns [true] exactly when a delay is
    still available and [false] otherwise.  With three retries and without
    forever mode, the first three calls of [retry] after [attempt] return
    [true] and the fourth returns [false].  After [stop], and whatever is
    called next but [reset], every call of [retry] returns [false] at once:
    it sets no timer, waits for no delay and calls no function. *)
Theorem retry_returns :
  (forall (ts : list number) (opts : options_t) (calls : list call) (h0 : host)
          (err : Error) (now start : positive),
     let sh := run calls (new ts opts, h0) in
     operationStart sh.1 = Some start ->
     budget_exceeded sh.1 now = false ->
     (retry err now sh.1 sh.2).1.1 = Return (delay_available sh.1)) /\
  (forall (rng : nat -> Q) (options : OperationOptions) (fuel : nat)
          (f : string) (topts : option timeoutOptions_t) (t0 : positive) (h : host)
          (c1 c2 c3 c4 : Error * positive),
     num_le (Fin (default 1000%Q (Retried.minTimeout options)))
            (default Infinity (Retried.maxTimeout options)) ->
     default (Retries 10) (Retried.retries options) = Retries 3 ->
     default false (Retried.forever options) = false ->
     3 < fuel ->
     exists op,
       operation fuel rng options = Some (Return op) /\
       let sh := attempt f topts t0 op h in
       (Forall (fun c => budget_exceeded sh.1 c.2 = false) [c1; c2; c3; c4] ->
        (retry_all [c1; c2; c3; c4] sh.1 sh.2).1.1
        = [Return true; Return true; Return true; Return false])) /\
  (forall (s : t) (h : host) (calls : list call) (err : Error) (now : positive),
     forallb (fun c => negb (is_reset c)) calls = true ->
     let sh := run calls (stop s h) in
     exists s' h',
       retry err now sh.1 sh.2 = (Return false, s', h') /\
       log h' = log sh.2 /\
       next_handle h' = next_handle sh.2 /\
       pending h' = delete_handle (timeout sh.1) (pending sh.2)).
Proof.
  split; [|split].
  - intros ts opts calls h0 err now start sh Hstart Hb.
    apply retry_result_within_budget; [|done].
    destruct (run_invariant ts opts calls h0) as [_ _ Hs _].
    apply Hs. fold sh. by rewrite Hstart.
  - intros rng options fuel f topts t0 h c1 c2 c3 c4 Hv Hr Hf Hfuel.
    destruct (operation_returns rng options 3 fuel Hv Hr Hfuel)
      as (ts & _ & Hlen & Hop).
    rewrite Hf in Hlen, Hop. simpl in Hlen.
    eexists. split; [exact Hop|].
    intros sh Hb.
    destruct (attempt_started f topts t0 (new ts (mkOpts false
      match Retried.maxRetryTime options with
      | Some m => if truthy m then m else Infinity
      | None => Infinity
      end)) h) as (Hfn & _ & Ht & Hc & _).
    fold sh in Hfn, Ht, Hc. simpl in Ht, Hc.
    pose proof (retry_all_exhausts [c1; c2; c3; c4] sh.1 sh.2) as H.
    rewrite Ht, Hlen in H. apply H; first [done | by rewrite Hfn].
  - intros s h calls err now Hnr sh.
    destruct (run_stays_stopped calls s h Hnr) as [Ht Hc]. fold sh in Ht, Hc.
    destruct (retry_nothing_left err now sh.1 sh.2 Ht Hc) as (s' & Hr & _).
    eexists _, _. split; [exact Hr|].
    by destruct (timeout sh.1).
Qed.

(** Three retries with the default backoff: 1000, 2000 and 4000 ms. *)
Lemma retry_returns_witness :
  exists op,
    operation 4 (fun _ => 0%Q)
      (mkOptions None None None None (Some (Retries 3)) None None)
    = Some (Return op) /\
    (retry_all
       [(mkError "E1" "", 2000%positive); (mkError "E2" "", 4000%positive);
        (mkError "E3" "", 7000%positive); (mkError "E4" "", 12000%positive)]
       (attempt "work" None 1000 op boot).1
       (attempt "work" None 1000 op boot).2).1.1
    = [Return true; Return true; Return true; Return false].
Proof.
  destruct retry_returns as (_ & H & _).
  destruct (H (fun _ => 0%Q)
              (mkOptions None None None None (Some (Retries 3)) None None)
              4 "work" None 1000%positive boot
              (mkError "E1" "", 2000%positive) (mkError "E2" "", 4000%positive)
              (mkError "E3" "", 7000%positive) (mkError "E4" "", 12000%positive)
              I eq_refl eq_refl (le_n 4)) as (op & Hop & Hrun).
  exists op. split; [exact Hop|].
  apply Hrun.
  injection Hop as <-.
  repeat constructor.
Defined.

(** *** Forever mode *)





(** *** The main error *)





(** *** The watchdog *)

(** C7, on the code.  When no watchdog was configured, a call of [retry]
    that starts a new attempt still sets a watchdog timer, with an
    undefined delay, and when that timer fires, before [succeed] or the
    next [retry] clears it, its callback calls the undefined
    [operationTimeoutFn] and throws. *)
Theorem retry_sets_unconfigured_watchdog
    (err : Error) (now : positive) (s : t) (h : host) :
  is_Some (fn s) ->
  operationTimeout s = None ->
  operationTimeoutFn s = None ->
  budget_exceeded s now = false ->
  delay_available s = true ->
  exists s' h' handle,
    retry err now s h = (Return true, s', h') /\
    timeout s' = Some handle /\
    pending h' !! handle = Some (mkTimer RetryWatchdog None) /\
    log (fire handle s' h')
    = log h' ++ [Uncaught (new_Error "self.operationTimeoutFn is not a function")].
Proof.
  intros [f Hf] Hd Hw Hb Ha.
  unfold delay_available in Ha.
  unfold retry, retry_begin, await_delay, retry_resume.
  rewrite Hb, clear_if_set. simpl.
  destruct (timeouts s) as [|d rest] eqn:Ht; simpl.
  - destruct (cachedTimeouts s) as [cached|] eqn:Hc; [|done]. simpl.
    rewrite Hf, Hd. eexists _, _, _. split; [reflexivity|]. simpl.
    split; [reflexivity|]. split; [by rewrite lookup_insert_eq|].
    unfold fire. simpl. rewrite lookup_insert_eq. simpl. by rewrite Hw.
  - rewrite Hf, Hd. eexists _, _, _. split; [reflexivity|]. simpl.
    split; [reflexivity|]. split; [by rewrite lookup_insert_eq|].
    unfold fire. simpl. rewrite lookup_insert_eq. simpl. by rewrite Hw.
Qed.

(** The first retry of an operation started without a watchdog. *)
Lemma retry_sets_unconfigured_watchdog_witness :
  exists s' h' handle,
    retry (mkError "E1" "") 2000
      (attempt "work" None 1000 (new [of_Z 1000; of_Z 2000] (mkOpts false Infinity)) boot).1
      (attempt "work" None 1000 (new [of_Z 1000; of_Z 2000] (mkOpts false Infinity)) boot).2
    = (Return true, s', h') /\
    timeout s' = Some handle /\
    pending h' !! handle = Some (mkTimer RetryWatchdog None) /\
    log (fire handle s' h')
    = log h' ++ [Uncaught (new_Error "self.operationTimeoutFn is not a function")].
Proof.
  apply (retry_sets_unconfigured_watchdog (mkError "E1" "") 2000
    (attempt "work" None 1000 (new [of_Z 1000; of_Z 2000] (mkOpts false Infinity)) boot).1
    (attempt "work" None 1000 (new [of_Z 1000; of_Z 2000] (mkOpts false Infinity)) boot).2).
  - by eexists.
  - reflexivity.
  - reflexivity.
  - reflexivity.
  - reflexivity.
Defined.

(** *** [succeed] *)

(** C8, as the code has it.  [succeed] clears the watchdog timer whose
    handle the operation holds and no other timer, so a pending retry timer
    stays pending; it changes nothing of the operation, and nothing is
    called or logged. *)
Theorem succeed_clears_watchdog_only (s : t) (h : host) :
  (succeed s h).1 = s /\
  (forall handle, timeout s = Some handle ->
     pending (succeed s h).2 !! handle = None) /\
  (forall handle, timer s = Some handle -> timeout s <> Some handle ->
     pending (succeed s h).2 !! handle = pending h !! handle) /\
  attempts (succeed s h).1 = attempts s /\
  errors (succeed s h).1 = errors s /\
  timeouts (succeed s h).1 = timeouts s /\
  originalTimeouts (succeed s h).1 = originalTimeouts s /\
  log (succeed s h).2 = log h.
Proof.
  unfold succeed. simpl.
  assert (Hother : forall handle, timeout s <> Some handle ->
            pending (clearTimeout (timeout s) h) !! handle = pending h !! handle).
  { intros handle Hne. destruct (timeout s) as [id|]; [|done].
    simpl. apply lookup_delete_ne. congruence. }
  repeat split; try done.
  - intros handle ->. simpl. apply lookup_delete_eq.
  - intros handle _. apply Hother.
  - by destruct (timeout s).
Qed.

(** C8 as stated fails: [succeed], called while a [retry] waits for its
    delay, leaves the retry timer pending. *)
Lemma succeed_leaves_retry_timer :
  match waiting_retry with
  | Awaiting delay s h =>
      timer s = Some 1%positive /\
      pending h !! 1%positive = Some (mkTimer Resolve (Some (of_Z 1000))) /\
      pending (succeed s h).2 !! 1%positive = Some (mkTimer Resolve (Some (of_Z 1000)))
  | Returned _ _ _ => False
  end.
Proof. vm_compute. repeat split. Qed.

(** *** The wall-clock budget *)






End OperationFacts.

(** * Further properties *)

(** ** The delays of the generator *)

Section DelayBounds.

Lemma Math_round_mono x y : (x <= y)%Q -> (Math_round x <= Math_round y)%Z.
Proof.
  intros H. unfold Math_round. apply Qfloor_resp_le. lra.
Qed.

Lemma of_Z_mono z z' : (z <= z')%Z -> num_le (of_Z z) (of_Z z').
Proof. intros H. simpl. by rewrite <- Zle_Qle. Qed.

Lemma Math_min_mono_l a a' b :
  num_le a a' -> num_le (Math_min a b) (Math_min a' b).
Proof.
  destruct a as [x|], a' as [x'|], b as [y|]; simpl; try done.
  - intros H.
    destruct (Qle_bool x y) eqn:E, (Qle_bool x' y) eqn:E'; simpl; try done.
    + by apply Qle_bool_iff.
    + apply Qle_bool_iff in E'.
      assert (~ (x <= y)%Q) by (intros G; apply Qle_bool_iff in G; congruence).
      lra.
    + lra.
  - intros _. destruct (Qle_bool x y) eqn:E; simpl.
    + by apply Qle_bool_iff.
    + lra.
  - intros _. lra.
Qed.

(** [createTimeout] without its defaults spelled out. *)
Lemma createTimeout_value attempt params draw :
  createTimeout attempt params draw =
  Math_min
    (of_Z (Math_round
       ((if default false (randomize params) then draw + 1 else 1) *
        Math_max (default 1000%Q (minTimeout params)) 1 *
        Math_pow (default 2%Q (factor params)) attempt)%Q))
    (default Infinity (maxTimeout params)).
Proof. reflexivity. Qed.

Lemma jitter_ge_1 (randomized : bool) draw :
  (0 <= draw)%Q -> (1 <= (if randomized then draw + 1 else 1))%Q.
Proof. intros H. destruct randomized; lra. Qed.

Lemma Math_max_1_ge_1 x : (1 <= Math_max x 1)%Q.
Proof. apply Math_max_ge_r. Qed.

Lemma Math_pow_le f i j :
  (1 <= f)%Q -> i <= j -> (Math_pow f i <= Math_pow f j)%Q.
Proof.
  intros Hf Hij. unfold Math_pow. apply Qpower_le_compat_l; [lia | done].
Qed.

Lemma Math_pow_ge_1 f i : (1 <= f)%Q -> (1 <= Math_pow f i)%Q.
Proof. intros Hf. unfold Math_pow. apply Qpower_1_le; [done | lia]. Qed.


Lemma scaled_le (c x y : Q) : (0 <= c)%Q -> (x <= y)%Q -> (c * x <= c * y)%Q.
Proof.
  intros Hc Hxy. rewrite (Qmult_comm c x), (Qmult_comm c y).
  by apply Qmult_le_compat_r.
Qed.

Lemma createTimeout_mono attempt attempt' params draw :
  (1 <= default 2%Q (factor params))%Q ->
  (0 <= draw)%Q ->
  attempt <= attempt' ->
  num_le (createTimeout attempt params draw) (createTimeout attempt' params draw).
Proof.
  intros Hf Hd Hle. rewrite !createTimeout_value.
  apply Math_min_mono_l, of_Z_mono, Math_round_mono, scaled_le.
  - pose proof (jitter_ge_1 (default false (randomize params)) draw Hd).
    pose proof (Math_max_1_ge_1 (default 1000%Q (minTimeout params))).
    apply Qmult_le_0_compat; lra.
  - by apply Math_pow_le.
Qed.

End DelayBounds.

(** X5.  With a factor of at least 1, and the same jitter, the delay of a
    later attempt is never shorter than that of an earlier one. *)
Theorem createTimeout_nondecreasing
    (attempt attempt' : nat) (params : OperationOptions) (draw : Q) :
  (1 <= default 2%Q (factor params))%Q ->
  (0 <= draw)%Q ->
  attempt <= attempt' ->
  num_le (createTimeout attempt params draw) (createTimeout attempt' params draw).
Proof. apply createTimeout_mono. Qed.

Lemma createTimeout_nondecreasing_witness :
  num_le
    (createTimeout 2 (mkOptions (Some (3 # 2)%Q) (Some 100%Q) (Some (of_Z 5000)) (Some true)
                        None None None) (1 # 4)%Q)
    (createTimeout 7 (mkOptions (Some (3 # 2)%Q) (Some 100%Q) (Some (of_Z 5000)) (Some true)
                        None None None) (1 # 4)%Q).
Proof.
  apply (createTimeout_nondecreasing 2 7
    (mkOptions (Some (3 # 2)%Q) (Some 100%Q) (Some (of_Z 5000)) (Some true) None None None)
    (1 # 4)%Q).
  - simpl. discriminate.
  - discriminate.
  - lia.
Defined.

(** X6.  With a factor of at least 1, no delay is shorter than 1 ms or than
    the rounded [minTimeout], unless [maxTimeout] is: a [minTimeout] of
    zero, or a negative one, counts as 1. *)
Theorem createTimeout_at_least_one_ms
    (attempt : nat) (params : OperationOptions) (draw : Q) :
  (1 <= default 2%Q (factor params))%Q ->
  (0 <= draw)%Q ->
  num_le (Math_min (of_Z 1) (default Infinity (maxTimeout params)))
         (createTimeout attempt params draw) /\
  num_le (Math_min (of_Z (Math_round (default 1000%Q (minTimeout params))))
                   (default Infinity (maxTimeout params)))
         (createTimeout attempt params draw).
Proof.
  intros Hf Hd. rewrite createTimeout_value.
  pose proof (jitter_ge_1 (default false (randomize params)) draw Hd) as Hj.
  pose proof (Math_max_1_ge_1 (default 1000%Q (minTimeout params))) as Hb.
  pose proof (Math_max_ge_l (default 1000%Q (minTimeout params)) 1) as Hm.
  pose proof (Math_pow_ge_1 (default 2%Q (factor params)) attempt Hf) as Hp.
  set (j := (if default false (randomize params) then draw + 1 else 1)%Q) in *.
  set (b := Math_max (default 1000%Q (minTimeout params)) 1) in *.
  set (w := Math_pow (default 2%Q (factor params)) attempt) in *.
  assert (Hjb : (b <= j * b)%Q).
  { rewrite <- (Qmult_1_l b) at 1. apply Qmult_le_compat_r; lra. }
  assert (Hjbw : (j * b <= j * b * w)%Q).
  { rewrite <- (Qmult_1_r (j * b)) at 1. apply scaled_le; lra. }
  split; apply Math_min_mono_l, of_Z_mono.
  - rewrite <- (Math_round_inject_Z 1). apply Math_round_mono.
    change (inject_Z 1) with 1%Q. lra.
  - apply Math_round_mono. lra.
Qed.

Lemma createTimeout_at_least_one_ms_witness :
  num_le (Math_min (of_Z 1) Infinity)
    (createTimeout 0 (mkOptions None (Some 0%Q) None None None None None) 0%Q) /\
  num_le (Math_min (of_Z (Math_round 0%Q)) Infinity)
    (createTimeout 0 (mkOptions None (Some 0%Q) None None None None None) 0%Q).
Proof.
  apply (createTimeout_at_least_one_ms 0
           (mkOptions None (Some 0%Q) None None None None None) 0%Q).
  - simpl. discriminate.
  - discriminate.
Defined.



(** ** The sequence of the generator *)

Section SequenceFacts.

Lemma compare_sub_le a b : num_le a b -> compare_sub a b <> Gt.
Proof.
  destruct a as [x|], b as [y|]; simpl; first [done | apply Qle_alt].
Qed.

(** Sorting leaves a sorted array as it is. *)
Lemma sort_Sorted_id l : Sorted num_le l -> sort compare_sub l = l.
Proof.
  induction 1 as [|x l Hs IH Hhd]; [done|].
  unfold sort in *. simpl. rewrite IH.
  destruct Hhd as [|y l' Hxy]; [done|]. simpl.
  apply compare_sub_le in Hxy. by destruct (compare_sub x y).
Qed.

Lemma Sorted_map_seq (g : nat -> number) n : forall a,
  (forall i, num_le (g i) (g (S i))) ->
  Sorted num_le (map g (seq a n)).
Proof.
  induction n as [|n IH]; intros a Hg; simpl; [constructor|].
  constructor; [by apply IH|].
  destruct n; simpl; constructor. apply Hg.
Qed.

(** The defaults of [timeouts] are those of [createTimeout]. *)
Lemma createTimeout_timeouts_options attempt params draw :
  createTimeout attempt (timeouts_options params) draw
  = createTimeout attempt params draw.
Proof. reflexivity. Qed.

Lemma timeouts_sorts_pushed_entries rng fuel params n :
  default (Retries 10) (retries params) = Retries n ->
  num_le (Fin (default 1000%Q (minTimeout params)))
         (default Infinity (maxTimeout params)) ->
  n < fuel ->
  timeouts fuel rng params
  = Some (Return (sort compare_sub (pushed_entries rng params n))).
Proof.
  intros Hr Hv Hfuel. rewrite (timeouts_finite rng fuel params n Hr Hv Hfuel).
  cbv zeta. unfold pushed_entries. do 3 f_equal.
  destruct (default false (Retried.forever params) && Nat.eqb n 0).
  - reflexivity.
  - by rewrite app_nil_r.
Qed.

Lemma pushed_entries_not_randomized rng params n :
  default false (randomize params) = false ->
  pushed_entries rng params n = pushed_entries (fun _ => 0%Q) params n.
Proof.
  intros Hr. unfold pushed_entries. f_equal.
  - apply map_ext. intros j. by rewrite !createTimeout_not_randomized.
  - destruct (_ && _); [|done]. by rewrite !createTimeout_not_randomized.
Qed.

Lemma pushed_entries_Sorted params n :
  (1 <= default 2%Q (factor params))%Q ->
  Sorted num_le (pushed_entries (fun _ => 0%Q) params n).
Proof.
  intros Hf. unfold pushed_entries.
  destruct (default false (Retried.forever params) && Nat.eqb n 0) eqn:E.
  - apply andb_true_iff in E as [_ E]. apply Nat.eqb_eq in E. subst n.
    simpl. repeat constructor.
  - rewrite app_nil_r.
    apply (Sorted_map_seq (fun j => createTimeout j params 0%Q)).
    intros i. apply createTimeout_mono; [done | discriminate | lia].
Qed.

Lemma timeouts_loop_fuel rng options n fuel : forall i acc l,
  timeouts_loop fuel rng options (Retries n) i acc = Some l -> n - i < fuel.
Proof.
  induction fuel as [|fuel IH]; intros i acc l H; [done|].
  simpl in H. destruct (i <? n) eqn:E.
  - apply Nat.ltb_lt in E. apply IH in H. lia.
  - apply Nat.ltb_ge in E. lia.
Qed.

(** When [timeouts] returns, [retries] was a count that the fuel covers. *)
Lemma timeouts_Return_inv rng fuel params ts :
  timeouts fuel rng params = Some (Return ts) ->
  num_le (Fin (default 1000%Q (minTimeout params)))
         (default Infinity (maxTimeout params)) /\
  exists n, default (Retries 10) (retries params) = Retries n /\ n < fuel.
Proof.
  rewrite timeouts_resolved. cbv zeta. intros H.
  destruct (num_gt _ _) eqn:E; [done|].
  split; [by apply num_gt_false_le|].
  destruct (timeouts_loop _ _ _ _ _ _) as [pushed|] eqn:El; [|done].
  destruct (timeouts_loop_inv rng _ _ _ _ _ _ El) as (n & Hn & _).
  exists n. split; [done|].
  rewrite Hn in El. apply timeouts_loop_fuel in El. lia.
Qed.



End SequenceFacts.

(** X1.  When the resolved [minTimeout] is above the resolved [maxTimeout],
    [timeouts] throws before its loop runs, whatever [retries] is and with
    no fuel at all, and [operation] throws the same error and builds no
    operation. *)
Theorem timeouts_rejects_inverted_bounds
    (fuel : nat) (rng : nat -> Q) (params : OperationOptions) :
  num_gt (Fin (default 1000%Q (minTimeout params)))
         (default Infinity (maxTimeout params)) = true ->
  timeouts fuel rng params
  = Some (Throw (new_Error "minTimeout is greater than maxTimeout")) /\
  operation fuel rng params
  = Some (Throw (new_Error "minTimeout is greater than maxTimeout")).
Proof.
  intros H.
  pose proof (timeouts_invalid_throws rng fuel params H) as Ht.
  split; [done|]. unfold operation. by rewrite Ht.
Qed.

Lemma timeouts_rejects_inverted_bounds_witness :
  timeouts 0 (fun _ => 0%Q)
    (mkOptions None (Some 2000%Q) (Some (of_Z 1000)) None (Some RetriesInfinity) None None)
  = Some (Throw (new_Error "minTimeout is greater than maxTimeout")) /\
  operation 0 (fun _ => 0%Q)
    (mkOptions None (Some 2000%Q) (Some (of_Z 1000)) None (Some RetriesInfinity) None None)
  = Some (Throw (new_Error "minTimeout is greater than maxTimeout")).
Proof.
  apply (timeouts_rejects_inverted_bounds 0 (fun _ => 0%Q)
    (mkOptions None (Some 2000%Q) (Some (of_Z 1000)) None (Some RetriesInfinity) None None)).
  reflexivity.
Defined.

(** X2.  An operation that [operation] returns was asked for a count of
    retries that the run covers, with valid bounds; it is new (first
    attempt, no error, nothing started), its timeouts are the sequence of
    [timeouts], and it is in forever mode exactly when the [forever] option
    is set: [retries: Infinity] never gets as far. *)
Theorem operation_returns_new_operation
    (fuel : nat) (rng : nat -> Q) (options : OperationOptions) (op : RetryOperation.t) :
  operation fuel rng options = Some (Return op) ->
  exists n,
    default (Retries 10) (retries options) = Retries n /\
    n < fuel /\
    timeouts fuel rng options = Some (Return (RetryOperation.timeouts op)) /\
    RetryOperation.timeouts op = sort compare_sub (pushed_entries rng options n) /\
    RetryOperation.originalTimeouts op = RetryOperation.timeouts op /\
    RetryOperation.forever (RetryOperation.options op)
    = default false (Retried.forever options) /\
    RetryOperation.cachedTimeouts op
    = (if default false (Retried.forever options)
       then Some (RetryOperation.timeouts op) else None) /\
    RetryOperation.attempts op = 1 /\
    RetryOperation.errors op = [] /\
    RetryOperation.fn op = None /\
    RetryOperation.operationStart op = None.
Proof.
  unfold operation. intros H.
  destruct (timeouts fuel rng options) as [[ts|e]|] eqn:E; try done.
  injection H as <-.
  destruct (timeouts_Return_inv rng fuel options ts E) as (Hv & n & Hn & Hfuel).
  exists n. split; [done|]. split; [done|]. simpl.
  assert (Hforever :
    default false (Retried.forever options)
    || match retries options with Some RetriesInfinity => true | _ => false end
    = default false (Retried.forever options)).
  { destruct (retries options) as [[m|]|]; simpl in *; try done;
      by rewrite orb_false_r. }
  rewrite Hforever.
  rewrite (timeouts_sorts_pushed_entries rng fuel options n Hn Hv Hfuel) in E.
  injection E as <-. done.
Qed.

(** Two retries in forever mode, a fuel of 3. *)
Lemma operation_returns_new_operation_witness :
  exists n, Retries 2 = Retries n /\ n < 3.
Proof.
  destruct (operation_returns_new_operation 3 (fun _ => 0%Q)
    (mkOptions None None None None (Some (Retries 2)) (Some true) None)
    (RetryOperation.new [of_Z 1000; of_Z 2000] (RetryOperation.mkOpts true Infinity))
    eq_refl) as (n & Hn & Hlt & _).
  exists n. split; assumption.
Defined.

(** X3.  Sorting only reorders: for valid bounds and a count [n] of retries
    the sequence [timeouts] returns holds exactly the delays
    [createTimeout(i, params)] of the indices below [n], entry [i] with the
    draw the loop made at pass [i] (and the one delay of index 0 when [n] is
    zero in forever mode), each as often as it was pushed. *)
Theorem timeouts_permutation_of_entries
    (fuel : nat) (rng : nat -> Q) (params : OperationOptions) (n : nat) :
  num_le (Fin (default 1000%Q (minTimeout params)))
         (default Infinity (maxTimeout params)) ->
  default (Retries 10) (retries params) = Retries n ->
  n < fuel ->
  exists ts,
    timeouts fuel rng params = Some (Return ts) /\
    ts ≡ₚ map (fun i => createTimeout i params (rng i)) (seq 0 n)
          ++ (if default false (Retried.forever params) && Nat.eqb n 0
              then [createTimeout 0 params (rng 0)] else []).
Proof.
  intros Hv Hr Hfuel.
  eexists. split; [by apply timeouts_sorts_pushed_entries|].
  rewrite sort_Permutation. unfold pushed_entries.
  destruct (default false (Retried.forever params) && Nat.eqb n 0) eqn:E; [|done].
  apply andb_true_iff in E as [_ E]. apply Nat.eqb_eq in E. by subst n.
Qed.

(** Three randomized retries, the draws 1, 1/2 and 1/3. *)
Lemma timeouts_permutation_of_entries_witness :
  exists ts,
    timeouts 4 (fun i => (1 # Pos.of_succ_nat i)%Q)
      (mkOptions None None None (Some true) (Some (Retries 3)) None None)
    = Some (Return ts) /\
    ts ≡ₚ map (fun i => createTimeout i
                 (mkOptions None None None (Some true) (Some (Retries 3)) None None)
                 (1 # Pos.of_succ_nat i)%Q) (seq 0 3)
          ++ [].
Proof.
  apply (timeouts_permutation_of_entries 4 (fun i => (1 # Pos.of_succ_nat i)%Q)
    (mkOptions None None None (Some true) (Some (Retries 3)) None None) 3).
  - exact I.
  - reflexivity.
  - lia.
Defined.

(** X4.  Without [randomize] and with a factor of at least 1 the sort
    changes nothing: the sequence is in the order of the indices, its
    entry [i] is [createTimeout(i, params)]. *)
Theorem timeouts_in_index_order
    (fuel : nat) (rng : nat -> Q) (params : OperationOptions) (n : nat) :
  num_le (Fin (default 1000%Q (minTimeout params)))
         (default Infinity (maxTimeout params)) ->
  default (Retries 10) (retries params) = Retries n ->
  n < fuel ->
  default false (randomize params) = false ->
  (1 <= default 2%Q (factor params))%Q ->
  exists ts,
    timeouts fuel rng params = Some (Return ts) /\
    (forall (i : nat) (draw : Q), i < n -> ts !! i = Some (createTimeout i params draw)) /\
    (0 < n -> length ts = n).
Proof.
  intros Hv Hr Hfuel Hrand Hf.
  eexists. split; [by apply timeouts_sorts_pushed_entries|].
  rewrite pushed_entries_not_randomized by done.
  rewrite sort_Sorted_id by (by apply pushed_entries_Sorted).
  unfold pushed_entries. split.
  - intros i draw Hi.
    rewrite lookup_app_l by (rewrite length_map, length_seq; lia).
    rewrite list_lookup_fmap, lookup_seq_lt by done. simpl.
    by rewrite !createTimeout_not_randomized.
  - intros Hn. rewrite length_app, length_map, length_seq.
    destruct n; [lia|]. rewrite andb_false_r. simpl. lia.
Qed.

Lemma timeouts_in_index_order_witness :
  exists ts,
    timeouts 6 (fun _ => 0%Q)
      (mkOptions (Some 3%Q) (Some 50%Q) (Some (of_Z 1000)) None (Some (Retries 5)) None None)
    = Some (Return ts) /\
    (forall (i : nat) (draw : Q), i < 5 ->
       ts !! i = Some (createTimeout i
         (mkOptions (Some 3%Q) (Some 50%Q) (Some (of_Z 1000)) None (Some (Retries 5)) None None)
         draw)) /\
    (0 < 5 -> length ts = 5).
Proof.
  apply (timeouts_in_index_order 6 (fun _ => 0%Q)
    (mkOptions (Some 3%Q) (Some 50%Q) (Some (of_Z 1000)) None (Some (Retries 5)) None None) 5).
  - simpl. discriminate.
  - reflexivity.
  - lia.
  - reflexivity.
  - simpl. discriminate.
Defined.



(** ** Sequences of retries *)

Section RetrySequences.

Import RetryOperation.

Lemma retry_with_timeout err now s h f d rest :
  fn s = Some f ->
  budget_exceeded s now = false ->
  timeouts s = d :: rest ->
  exists s' h',
    retry err now s h = (Return true, s', h') /\
    timeouts s' = rest /\
    fn s' = Some f /\
    operationStart s' = operationStart s /\
    maxRetryTime s' = maxRetryTime s /\
    attempts s' = S (attempts s) /\
    errors s' = errors s ++ [err] /\
    log h' = log h ++ [Delayed (Some d); Work f (S (attempts s))].
Proof.
  intros Hf Hb Ht. unfold retry, retry_begin, await_delay, retry_resume.
  rewrite Hb, clear_if_set. simpl. rewrite Ht. simpl. rewrite Hf.
  eexists _, _. split; [reflexivity|]. simpl. repeat split; try done.
  destruct (timeout s); simpl; by rewrite <- app_assoc.
Qed.

Lemma retry_all_with_timeouts calls : forall s h f,
  fn s = Some f ->
  Forall (fun c => budget_exceeded s c.2 = false) calls ->
  length calls <= length (timeouts s) ->
  exists s' h',
    retry_all calls s h = (replicate (length calls) (Return true), s', h') /\
    timeouts s' = drop (length calls) (timeouts s) /\
    attempts s' = attempts s + length calls /\
    errors s' = errors s ++ calls.*1 /\
    log h' = log h ++ retry_trace f (attempts s) (take (length calls) (timeouts s)).
Proof.
  induction calls as [|[err now] calls IH]; intros s h f Hf Hb Hlen.
  - exists s, h. simpl. rewrite drop_0, !app_nil_r. repeat split; lia.
  - apply Forall_cons in Hb as [Hb Hbs]. simpl in Hb, Hlen.
    destruct (timeouts s) as [|d rest] eqn:Ht; [simpl in Hlen; lia|].
    destruct (retry_with_timeout err now s h f d rest Hf Hb Ht)
      as (s1 & h1 & Hr & Ht1 & Hf1 & Hs1 & Hm1 & Ha1 & He1 & Hl1).
    destruct (IH s1 h1 f Hf1) as (s' & h' & Hall & Ht' & Ha' & He' & Hl').
    + eapply Forall_impl; [exact Hbs|]. intros c Hc.
      by rewrite (budget_exceeded_same s s1).
    + rewrite Ht1. simpl in Hlen. lia.
    + exists s', h'. simpl. rewrite Hr, Hall. split; [done|].
      rewrite Ht1, Ha1, He1, Hl1 in *. rewrite Ht', Ha', He', Hl'.
      split; [done|]. split; [lia|].
      split; by rewrite <- app_assoc.
Qed.

Lemma retry_appends_error err now s h :
  cachedTimeouts s = None ->
  budget_exceeded s now = false ->
  errors (retry err now s h).1.2 = errors s ++ [err] /\
  cachedTimeouts (retry err now s h).1.2 = None /\
  operationStart (retry err now s h).1.2 = operationStart s /\
  maxRetryTime (retry err now s h).1.2 = maxRetryTime s.
Proof.
  intros Hc Hb. unfold retry, retry_begin, await_delay, retry_resume.
  rewrite Hb. simpl. rewrite Hc.
  destruct (timeouts s); simpl; [done|].
  by destruct (fn s).
Qed.

Lemma retry_all_appends_errors calls : forall s h,
  cachedTimeouts s = None ->
  Forall (fun c => budget_exceeded s c.2 = false) calls ->
  errors (retry_all calls s h).1.2 = errors s ++ calls.*1.
Proof.
  induction calls as [|[err now] calls IH]; intros s h Hc Hb; simpl.
  - by rewrite app_nil_r.
  - apply Forall_cons in Hb as [Hb Hbs]. simpl in Hb.
    destruct (retry_appends_error err now s h Hc Hb) as (He & Hc' & Hs & Hm).
    destruct (retry err now s h) as [[r s1] h1]. simpl in *.
    specialize (IH s1 h1 Hc').
    destruct (retry_all calls s1 h1) as [[rs s'] h']. simpl in *.
    rewrite IH, He; [by rewrite <- app_assoc|].
    eapply Forall_impl; [exact Hbs|]. intros c Hcb.
    by rewrite (budget_exceeded_same s s1).
Qed.

(** X9.  On a started operation, retries within the budget that each find
    a timeout all return [true]; they use up the timeouts from the front,
    one each, wait for them in that order, call the work function once per
    retry with consecutive attempt numbers, count the attempts, and append
    the errors in the order given. *)
Theorem retries_use_timeouts_in_order
    (calls : list (Error * positive)) (s : t) (h : host) (f : string) :
  fn s = Some f ->
  Forall (fun c => budget_exceeded s c.2 = false) calls ->
  length calls <= length (timeouts s) ->
  exists s' h',
    retry_all calls s h = (replicate (length calls) (Return true), s', h') /\
    timeouts s' = drop (length calls) (timeouts s) /\
    attempts s' = attempts s + length calls /\
    errors s' = errors s ++ calls.*1 /\
    log h' = log h ++ retry_trace f (attempts s) (take (length calls) (timeouts s)).
Proof. apply retry_all_with_timeouts. Qed.

(** Two retries of an operation with three timeouts. *)
Lemma retries_use_timeouts_in_order_witness :
  exists s' h',
    retry_all [(mkError "E1" "", 2000%positive); (mkError "E2" "", 4000%positive)]
      (attempt "work" None 1000
         (new [of_Z 1000; of_Z 2000; of_Z 4000] (mkOpts false Infinity)) boot).1
      (attempt "work" None 1000
         (new [of_Z 1000; of_Z 2000; of_Z 4000] (mkOpts false Infinity)) boot).2
    = ([Return true; Return true], s', h') /\
    timeouts s' = [of_Z 4000] /\
    attempts s' = 3 /\
    errors s' = [mkError "E1" ""; mkError "E2" ""] /\
    log h' = [Work "work" 1] ++
             [Delayed (Some (of_Z 1000)); Work "work" 2;
              Delayed (Some (of_Z 2000)); Work "work" 3].
Proof.
  apply (retries_use_timeouts_in_order
    [(mkError "E1" "", 2000%positive); (mkError "E2" "", 4000%positive)]
    (attempt "work" None 1000
       (new [of_Z 1000; of_Z 2000; of_Z 4000] (mkOpts false Infinity)) boot).1
    (attempt "work" None 1000
       (new [of_Z 1000; of_Z 2000; of_Z 4000] (mkOpts false Infinity)) boot).2
    "work").
  - reflexivity.
  - repeat constructor.
  - simpl. lia.
Defined.

(** X10.  Outside forever mode and within the budget, every call of
    [retry] appends its error to [errors], whether it returns [true],
    returns [false] or finds no work function: the errors are in the order
    of the calls, the first at index 0. *)
Theorem errors_are_chronological
    (calls : list (Error * positive)) (s : t) (h : host) :
  cachedTimeouts s = None ->
  Forall (fun c => budget_exceeded s c.2 = false) calls ->
  errors (retry_all calls s h).1.2 = errors s ++ calls.*1.
Proof. apply retry_all_appends_errors. Qed.

(** Three failures on an operation with one timeout. *)
Lemma errors_are_chronological_witness :
  errors (retry_all
    [(mkError "E1" "", 2000%positive); (mkError "E2" "", 4000%positive);
     (mkError "E3" "", 5000%positive)]
    (new [of_Z 1000] (mkOpts false Infinity)) boot).1.2
  = [] ++ [mkError "E1" ""; mkError "E2" ""; mkError "E3" ""].
Proof.
  apply (errors_are_chronological
    [(mkError "E1" "", 2000%positive); (mkError "E2" "", 4000%positive);
     (mkError "E3" "", 5000%positive)]
    (new [of_Z 1000] (mkOpts false Infinity)) boot).
  - reflexivity.
  - repeat constructor.
Defined.

(** X11.  [stop] changes nothing but the timers it clears, the timeouts and
    the cache, and a second [stop] changes nothing at all. *)
Theorem stop_idempotent (s : t) (h : host) :
  stop (stop s h).1 (stop s h).2 = stop s h /\
  attempts (stop s h).1 = attempts s /\
  errors (stop s h).1 = errors s /\
  originalTimeouts (stop s h).1 = originalTimeouts s /\
  fn (stop s h).1 = fn s /\
  operationStart (stop s h).1 = operationStart s /\
  log (stop s h).2 = log h /\
  next_handle (stop s h).2 = next_handle h.
Proof.
  unfold stop. simpl. rewrite !clear_if_set.
  split.
  - f_equal.
    rewrite (clearTimeout_swap (timeout s) (timer s) (clearTimeout (timeout s) h)).
    by rewrite !clearTimeout_twice.
  - repeat split; by destruct (timeout s), (timer s).
Qed.

(** X12.  [stop] ends forever mode for good: after [stop] and [reset] the
    operation has its original timeouts again but no cache, so with [n]
    original timeouts it answers [n] times [true] and then [false], also
    if it was built in forever mode. *)
Theorem stop_then_reset_is_not_forever
    (calls : list (Error * positive)) (s : t) (h : host) :
  is_Some (fn s) ->
  Forall (fun c => budget_exceeded s c.2 = false) calls ->
  length calls = S (length (originalTimeouts s)) ->
  let s' := reset (stop s h).1 in
  cachedTimeouts s' = None /\
  timeouts s' = originalTimeouts s /\
  (retry_all calls s' (stop s h).2).1.1
  = replicate (length (originalTimeouts s)) (Return true) ++ [Return false].
Proof.
  intros Hf Hb Hlen s'. split; [done|]. split; [done|].
  apply (retry_all_exhausts calls s' (stop s h).2); done.
Qed.

(** An operation built in forever mode with one timeout. *)
Lemma stop_then_reset_is_not_forever_witness :
  (retry_all [(mkError "E1" "", 2000%positive); (mkError "E2" "", 4000%positive)]
     (reset (stop (attempt "work" None 1000
                     (new [of_Z 1000] (mkOpts true Infinity)) boot).1 boot).1)
     (stop (attempt "work" None 1000
              (new [of_Z 1000] (mkOpts true Infinity)) boot).1 boot).2).1.1
  = [Return true; Return false].
Proof.
  apply (stop_then_reset_is_not_forever
    [(mkError "E1" "", 2000%positive); (mkError "E2" "", 4000%positive)]
    (attempt "work" None 1000 (new [of_Z 1000] (mkOpts true Infinity)) boot).1 boot).
  - by eexists.
  - repeat constructor.
  - reflexivity.
Defined.

Lemma budget_exceeded_later s start now now' :
  operationStart s = Some start ->
  num_le (maxRetryTime s) (of_Z (Z.pos now - Z.pos start)) ->
  (now <= now')%positive ->
  budget_exceeded s now' = true.
Proof.
  intros Hs Hle Hlater. unfold budget_exceeded. rewrite Hs.
  apply num_ge_true_le.
  eapply num_le_trans; [exact Hle|]. apply of_Z_mono. lia.
Qed.

Lemma replicate_cons_app {A} (k : nat) (x : A) (l : list A) :
  replicate k x ++ x :: l = x :: replicate k x ++ l.
Proof. induction k as [|k IH]; simpl; [done | by rewrite IH]. Qed.

Lemma retry_all_over_budget calls : forall s h,
  Forall (fun c => budget_exceeded s c.2 = true) calls ->
  exists s' h',
    retry_all calls s h = (replicate (length calls) (Return false), s', h') /\
    errors s'
    = replicate (length calls) (new_Error "RetryOperation timeout occurred")
      ++ errors s ++ calls.*1 /\
    timeouts s' = timeouts s /\
    cachedTimeouts s' = cachedTimeouts s /\
    attempts s' = attempts s /\
    log h' = log h /\
    next_handle h' = next_handle h.
Proof.
  induction calls as [|[err now] calls IH]; intros s h Hb.
  - exists s, h. simpl. by rewrite app_nil_r.
  - apply Forall_cons in Hb as [Hb Hbs]. simpl in Hb.
    destruct (IH
      (set_errors (new_Error "RetryOperation timeout occurred" :: errors s ++ [err]) s)
      (clearTimeout (timeout s) h) Hbs) as (s' & h' & Hall & He & Ht & Hc & Ha & Hl & Hn).
    exists s', h'. simpl. unfold retry at 1, retry_begin.
    rewrite Hb, clear_if_set, Hall. split; [done|].
    rewrite He, Ht, Hc, Ha, Hl, Hn. simpl.
    repeat split; try by destruct (timeout s).
    rewrite replicate_cons_app. simpl. by rewrite <- app_assoc.
Qed.

(** X13.  A budget that is used up stays used up: once the time elapsed
    since the start has reached [maxRetryTime], every later call of [retry]
    returns [false] without waiting or calling anything, leaves timeouts
    and attempts alone, and adds one more timeout marker at the front of
    [errors] besides its error at the end. *)
Theorem budget_exhausted_stays
    (calls : list (Error * positive)) (s : t) (h : host) (start now : positive) :
  operationStart s = Some start ->
  num_le (maxRetryTime s) (of_Z (Z.pos now - Z.pos start)) ->
  Forall (fun c => (now <= c.2)%positive) calls ->
  exists s' h',
    retry_all calls s h = (replicate (length calls) (Return false), s', h') /\
    errors s'
    = replicate (length calls) (new_Error "RetryOperation timeout occurred")
      ++ errors s ++ calls.*1 /\
    timeouts s' = timeouts s /\
    cachedTimeouts s' = cachedTimeouts s /\
    attempts s' = attempts s /\
    log h' = log h /\
    next_handle h' = next_handle h.
Proof.
  intros Hs Hle Hlater. apply retry_all_over_budget.
  eapply Forall_impl; [exact Hlater|]. intros c Hc.
  by apply (budget_exceeded_later s start now).
Qed.

(** A budget of 500 ms, and two retries 600 ms and 900 ms after the start. *)
Lemma budget_exhausted_stays_witness :
  exists s' h',
    retry_all [(mkError "E1" "", 1600%positive); (mkError "E2" "", 1900%positive)]
      (set_started "work" 1000 (new [of_Z 1000; of_Z 2000] (mkOpts true (of_Z 500))))
      boot
    = ([Return false; Return false], s', h') /\
    errors s'
    = [new_Error "RetryOperation timeout occurred";
       new_Error "RetryOperation timeout occurred"]
      ++ [] ++ [mkError "E1" ""; mkError "E2" ""] /\
    timeouts s' = [of_Z 1000; of_Z 2000] /\
    cachedTimeouts s' = Some [of_Z 1000; of_Z 2000] /\
    attempts s' = 1 /\
    log h' = [] /\
    next_handle h' = 1%positive.
Proof.
  apply (budget_exhausted_stays
    [(mkError "E1" "", 1600%positive); (mkError "E2" "", 1900%positive)]
    (set_started "work" 1000 (new [of_Z 1000; of_Z 2000] (mkOpts true (of_Z 500))))
    boot 1000 1600).
  - reflexivity.
  - vm_compute. discriminate.
  - repeat constructor; vm_compute; discriminate.
Defined.

End RetrySequences.

(** ** Watchdogs *)

Section WatchdogFacts.

Import RetryOperation.

(** X14.  The watchdog of [attempt].  A timeout of zero configures nothing,
    as if no options were given.  Any other timeout sets one timer, for
    that delay, and stores the delay and the function; the handle is not
    kept, so neither [succeed] nor [stop] clears the timer, and when it
    fires it calls the function with the attempt count of that moment. *)
Theorem attempt_watchdog
    (f w : string) (d : number) (now : positive) (s : t) (h : host) :
  timeout s <> Some (next_handle h) ->
  timer s <> Some (next_handle h) ->
  let sh := attempt f (Some (mkTimeoutOptions (Some d) w)) now s h in
  let handle := next_handle h in
  if truthy d
  then
    pending sh.2 !! handle = Some (mkTimer (AttemptWatchdog w) (Some d)) /\
    operationTimeout sh.1 = Some d /\
    operationTimeoutFn sh.1 = Some w /\
    timeout sh.1 = timeout s /\
    pending (succeed sh.1 sh.2).2 !! handle
    = Some (mkTimer (AttemptWatchdog w) (Some d)) /\
    pending (stop sh.1 sh.2).2 !! handle
    = Some (mkTimer (AttemptWatchdog w) (Some d)) /\
    (forall s' h',
       pending h' !! handle = Some (mkTimer (AttemptWatchdog w) (Some d)) ->
       log (fire handle s' h') = log h' ++ [Watchdog w (attempts s')])
  else
    sh = attempt f None now s h /\
    pending sh.2 = pending h /\
    operationTimeout sh.1 = operationTimeout s /\
    operationTimeoutFn sh.1 = operationTimeoutFn s.
Proof.
  intros Hto Hti sh handle. subst sh handle. unfold attempt. simpl.
  destruct (truthy d) eqn:E; simpl; [|done].
  assert (Hp : <[next_handle h := mkTimer (AttemptWatchdog w) (Some d)]> (pending h)
               !! next_handle h = Some (mkTimer (AttemptWatchdog w) (Some d)))
    by apply lookup_insert_eq.
  repeat split; try done.
  - destruct (timeout s) as [id|] eqn:E1; simpl; [|done].
    rewrite lookup_delete_ne by congruence. done.
  - unfold stop. simpl. rewrite !clear_if_set.
    destruct (timeout s) as [id|] eqn:E1, (timer s) as [id'|] eqn:E2; simpl;
      rewrite ?lookup_delete_ne by congruence; done.
  - intros s' h' Hpending. unfold fire. by rewrite Hpending.
Qed.

(** A watchdog of 5000 ms on a new operation. *)
Lemma attempt_watchdog_witness :
  pending (succeed
    (attempt "work" (Some (mkTimeoutOptions (Some (of_Z 5000)) "late")) 1000
       (new [of_Z 1000] (mkOpts false Infinity)) boot).1
    (attempt "work" (Some (mkTimeoutOptions (Some (of_Z 5000)) "late")) 1000
       (new [of_Z 1000] (mkOpts false Infinity)) boot).2).2 !! 1%positive
  = Some (mkTimer (AttemptWatchdog "late") (Some (of_Z 5000))).
Proof.
  pose proof (attempt_watchdog "work" "late" (of_Z 5000) 1000
    (new [of_Z 1000] (mkOpts false Infinity)) boot) as H.
  simpl in H.
  destruct H as (_ & _ & _ & _ & H & _); [discriminate | discriminate |].
  exact H.
Defined.

(** X15.  The watchdog of [retry], when one was configured: a retry that
    starts a new attempt sets one timer for the stored delay and keeps its
    handle; if the timer fires it calls the stored function with the new
    attempt count; after [succeed] its firing does nothing. *)
Theorem retry_watchdog_cleared_by_succeed
    (err : Error) (now : positive) (s : t) (h : host) (f w : string) (d : number) :
  fn s = Some f ->
  operationTimeout s = Some d ->
  operationTimeoutFn s = Some w ->
  budget_exceeded s now = false ->
  delay_available s = true ->
  exists s' h' handle,
    retry err now s h = (Return true, s', h') /\
    attempts s' = S (attempts s) /\
    timeout s' = Some handle /\
    pending h' !! handle = Some (mkTimer RetryWatchdog (Some d)) /\
    log (fire handle s' h') = log h' ++ [Watchdog w (S (attempts s))] /\
    pending (succeed s' h').2 !! handle = None /\
    fire handle s' (succeed s' h').2 = (succeed s' h').2.
Proof.
  intros Hf Hd Hw Hb Ha.
  unfold delay_available in Ha.
  unfold retry, retry_begin, await_delay, retry_resume.
  rewrite Hb, clear_if_set. simpl.
  assert (Hfire : forall s' h' handle,
    pending h' !! handle = None -> fire handle s' h' = h').
  { intros s' h' handle Hnone. unfold fire. by rewrite Hnone. }
  destruct (timeouts s) as [|d0 rest] eqn:Ht; simpl.
  - destruct (cachedTimeouts s) as [cached|] eqn:Hc; [|done]. simpl.
    rewrite Hf, Hd. eexists _, _, _. split; [reflexivity|]. simpl.
    split; [done|]. split; [reflexivity|].
    split; [by rewrite lookup_insert_eq|].
    split; [unfold fire; simpl; rewrite lookup_insert_eq; simpl; by rewrite Hw|].
    split; [by rewrite lookup_delete_eq|].
    apply Hfire. simpl. by rewrite lookup_delete_eq.
  - rewrite Hf, Hd. eexists _, _, _. split; [reflexivity|]. simpl.
    split; [done|]. split; [reflexivity|].
    split; [by rewrite lookup_insert_eq|].
    split; [unfold fire; simpl; rewrite lookup_insert_eq; simpl; by rewrite Hw|].
    split; [by rewrite lookup_delete_eq|].
    apply Hfire. simpl. by rewrite lookup_delete_eq.
Qed.

(** The first retry of an operation started with a watchdog of 5000 ms. *)
Lemma retry_watchdog_cleared_by_succeed_witness :
  exists s' h' handle,
    retry (mkError "E1" "") 2000
      (attempt "work" (Some (mkTimeoutOptions (Some (of_Z 5000)) "late")) 1000
         (new [of_Z 1000] (mkOpts false Infinity)) boot).1
      (attempt "work" (Some (mkTimeoutOptions (Some (of_Z 5000)) "late")) 1000
         (new [of_Z 1000] (mkOpts false Infinity)) boot).2
    = (Return true, s', h') /\
    attempts s' = 2 /\
    timeout s' = Some handle /\
    pending h' !! handle = Some (mkTimer RetryWatchdog (Some (of_Z 5000))) /\
    log (fire handle s' h') = log h' ++ [Watchdog "late" 2] /\
    pending (succeed s' h').2 !! handle = None /\
    fire handle s' (succeed s' h').2 = (succeed s' h').2.
Proof.
  apply (retry_watchdog_cleared_by_succeed (mkError "E1" "") 2000
    (attempt "work" (Some (mkTimeoutOptions (Some (of_Z 5000)) "late")) 1000
       (new [of_Z 1000] (mkOpts false Infinity)) boot).1
    (attempt "work" (Some (mkTimeoutOptions (Some (of_Z 5000)) "late")) 1000
       (new [of_Z 1000] (mkOpts false Infinity)) boot).2
    "work" "late" (of_Z 5000)); reflexivity.
Defined.

End WatchdogFacts.

(** ** What holds in every state *)

Section ReachableFacts.

Import RetryOperation.

Lemma drop_next {A} (l : list A) k x rest :
  drop k l = x :: rest -> drop (S k) l = rest.
Proof.
  intros H. replace (S k) with (1 + k) by lia.
  rewrite Nat.add_comm, <- drop_drop, H. done.
Qed.

Lemma Sorted_drop k : forall l, Sorted num_le l -> Sorted num_le (drop k l).
Proof.
  induction k as [|k IH]; intros l Hl; [by rewrite drop_0|].
  destruct l as [|x l]; [done|]. simpl. apply IH. by inversion Hl.
Qed.

Lemma retry_begin_tail_of_original ts err now s h :
  tail_of_original ts s ->
  tail_of_original ts
    match retry_begin err now s h with
    | Returned _ s' _ => s'
    | Awaiting _ s' _ => s'
    end.
Proof.
  intros (Ho & Ha & k & Hk). unfold retry_begin, await_delay.
  destruct (budget_exceeded s now); simpl; [by repeat split; eauto|].
  destruct (timeouts s) as [|d rest] eqn:Ht; simpl.
  - destruct (cachedTimeouts s); simpl; repeat split; eauto;
      exists k; simpl; congruence.
  - repeat split; eauto. exists (S k). simpl. symmetry. by apply (drop_next ts k d).
Qed.

Lemma exec_tail_of_original ts c s h :
  tail_of_original ts s -> tail_of_original ts (exec c (s, h)).1.
Proof.
  intros Hs. pose proof Hs as (Ho & Ha & k & Hk).
  destruct c as [| |f topts now| |err now|err now| |handle]; simpl.
  - repeat split; simpl; [done | lia |]. exists 0. by rewrite drop_0.
  - repeat split; simpl; [done | done |]. exists (length ts). by rewrite drop_all.
  - unfold attempt. destruct (watchdog_given topts) as [[d w]|]; by repeat split; eauto.
  - done.
  - pose proof (retry_begin_tail_of_original ts err now s h Hs) as Hb.
    unfold retry. destruct (retry_begin err now s h) as [b s' h'|delay s' h']; [done|].
    destruct Hb as (Ho' & Ha' & k' & Hk').
    unfold retry_resume. simpl.
    destruct (fn s'); simpl; repeat split; eauto; simpl; lia.
  - pose proof (retry_begin_tail_of_original ts err now s h Hs) as Hb.
    by destruct (retry_begin err now s h).
  - unfold retry_resume. simpl.
    destruct (fn s); simpl; repeat split; eauto; simpl; lia.
  - done.
Qed.

(** X16.  In every state an operation can reach, whatever the order of the
    calls, [attempts] is at least 1 and the timeouts left are the original
    sequence without some of its first entries: delays are only ever taken
    from the front, none is skipped or used twice between two resets, and
    if the original sequence is ascending so is what is left of it. *)
Theorem timeouts_left_are_a_tail
    (ts : list number) (opts : options_t) (calls : list call) (h : host) :
  let s := (run calls (new ts opts, h)).1 in
  1 <= attempts s /\
  originalTimeouts s = ts /\
  (exists k, timeouts s = drop k ts) /\
  (Sorted num_le ts -> Sorted num_le (timeouts s)).
Proof.
  intros s.
  assert (H : tail_of_original ts s).
  { apply (run_keeps (tail_of_original ts) (fun _ => true)).
    - intros c s' h' _. apply exec_tail_of_original.
    - induction calls; simpl; auto.
    - repeat split; simpl; [lia|]. exists 0. by rewrite drop_0. }
  destruct H as (Ho & Ha & k & Hk).
  repeat split; eauto.
  intros Hs. rewrite Hk. by apply Sorted_drop.
Qed.

End ReachableFacts.

(** ** The main error of distinct failures *)

Section MainErrorFacts.

Import RetryOperation.




End MainErrorFacts.

(** ** The timers left pending *)

Section PendingFacts.

Import RetryOperation.

Lemma run_keeps_pair (P : t -> host -> Prop) (ok : call -> bool) :
  (forall c s h, ok c = true -> P s h -> P (exec c (s, h)).1 (exec c (s, h)).2) ->
  forall calls sh, forallb ok calls = true -> P sh.1 sh.2 ->
    P (run calls sh).1 (run calls sh).2.
Proof.
  intros Hstep. induction calls as [|c calls IH]; intros [s h] Hok HP; [done|].
  simpl in Hok. apply andb_true_iff in Hok as [Hc Hok].
  unfold run. simpl. apply IH; [done|].
  pose proof (Hstep c s h Hc HP) as H.
  destruct c; simpl in *; exact H.
Qed.

Ltac lookups :=
  repeat match goal with
    | H : (delete _ _) !! _ = Some _ |- _ => apply lookup_delete_Some in H as [? H]
    | H : (<[_ := _]> _) !! _ = Some _ |- _ =>
        apply lookup_insert_Some in H as [[? ?]|[? H]]
    end.

Lemma clear_timers_kept s h :
  timers_kept s h ->
  (forall id tm, pending (clearTimeout (timeout s) h) !! id = Some tm ->
     (id < next_handle h)%positive /\ timer_callback tm <> RetryWatchdog /\
     timer_callback tm <> Resolve) /\
  next_handle (clearTimeout (timeout s) h) = next_handle h.
Proof.
  intros (H1 & H2 & H3). split; [|by destruct (timeout s)].
  intros id tm Hl.
  assert (Hl' : pending h !! id = Some tm /\ timeout s <> Some id).
  { destruct (timeout s) as [i|]; simpl in Hl; [|done].
    apply lookup_delete_Some in Hl as [? ?]. split; [done | congruence]. }
  destruct Hl' as [Hp Hne]. split; [by eapply H1|].
  specialize (H3 id tm Hp). destruct (timer_callback tm); done.
Qed.

Lemma retry_timers_kept err now s h :
  timers_kept s h ->
  timers_kept (retry err now s h).1.2 (retry err now s h).2.
Proof.
  intros Hk. destruct (clear_timers_kept s h Hk) as [Hc Hn].
  destruct Hk as (H1 & H2 & H3).
  unfold retry, retry_begin, await_delay, retry_resume. rewrite clear_if_set.
  set (h0 := clearTimeout (timeout s) h) in *.
  assert (Hreturned : forall s', timeout s' = timeout s -> timers_kept s' h0).
  { intros s' Hs'. repeat split.
    - intros id tm Hl. rewrite Hn. by apply (Hc id tm).
    - intros id Hid. rewrite Hn. apply H2. congruence.
    - intros id tm Hl. destruct (Hc id tm Hl) as (_ & Hw & Hr).
      by destruct (timer_callback tm). }
  destruct (budget_exceeded s now); simpl; [by apply Hreturned|].
  destruct (timeouts s) as [|d rest]; simpl.
  - destruct (cachedTimeouts s); simpl; [|by apply Hreturned].
    destruct (fn s); simpl; repeat split; simpl.
    all: try (intros id tm Hl; lookups; subst; simpl; try done; try lia;
              destruct (Hc id tm Hl) as (Hlt & Hw & Hr); rewrite ?Hn;
              first [lia | by destruct (timer_callback tm)]).
    all: try (intros id [= <-]; lia).
    all: intros id Hid; apply H2 in Hid; rewrite Hn; lia.
  - destruct (fn s); simpl; repeat split; simpl.
    all: try (intros id tm Hl; lookups; subst; simpl; try done; try lia;
              destruct (Hc id tm Hl) as (Hlt & Hw & Hr); rewrite ?Hn;
              first [lia | by destruct (timer_callback tm)]).
    all: try (intros id [= <-]; lia).
    all: intros id Hid; apply H2 in Hid; rewrite Hn; lia.
Qed.

Ltac kept :=
  first
    [ done
    | match goal with
      | Hl : pending ?h !! ?id = Some ?tm,
        H : (forall id tm, pending ?h !! id = Some tm -> _) |- _ =>
          exact (H id tm Hl)
      end
    | eauto ].

Lemma exec_timers_kept c s h :
  whole_call c = true ->
  timers_kept s h ->
  timers_kept (exec c (s, h)).1 (exec c (s, h)).2.
Proof.
  intros Hc Hk.
  destruct c as [| |f topts now| |err now|err now| |handle]; simpl; try done.
  - destruct Hk as (H1 & H2 & H3).
    unfold stop. simpl. rewrite !clear_if_set. repeat split; simpl.
    + intros id tm Hl.
      destruct (timeout s), (timer s); simpl in *; lookups; kept.
    + intros id Hid. destruct (timeout s), (timer s); simpl in *; kept.
    + intros id tm Hl.
      destruct (timeout s), (timer s); simpl in *; lookups; kept.
  - destruct Hk as (H1 & H2 & H3).
    unfold attempt. destruct (watchdog_given topts) as [[d w]|]; simpl;
      repeat split; simpl; try kept.
    + intros id tm Hl. lookups; subst; [lia|]. apply H1 in Hl. lia.
    + intros id Hid. apply H2 in Hid. lia.
    + intros id tm Hl. lookups; subst; simpl; kept.
  - destruct Hk as (H1 & H2 & H3).
    unfold succeed. repeat split; simpl.
    + intros id tm Hl. destruct (timeout s); simpl in *; lookups; kept.
    + intros id Hid. destruct (timeout s); simpl in *; kept.
    + intros id tm Hl. destruct (timeout s); simpl in *; lookups; kept.
  - pose proof (retry_timers_kept err now s h Hk) as H.
    by destruct (retry err now s h) as [[r s'] h'].
  - destruct Hk as (H1 & H2 & H3).
    unfold fire. destruct (pending h !! handle) as [tm0|] eqn:E; [|done].
    assert (Hdel : timers_kept s (clearTimeout (Some handle) h)).
    { repeat split; simpl; try kept; intros id tm Hl; lookups; kept. }
    destruct (timer_callback tm0); [done| done |].
    by destruct (operationTimeoutFn s).
Qed.

(** X18.  As long as every [retry] runs as a whole, from a new operation
    and whatever else is called in between, the watchdogs of [retry] never
    pile up: at most one is pending, the one whose handle the operation
    holds, and no delay timer of [retry] is left pending. *)
Theorem retry_timers_never_pile_up
    (ts : list number) (opts : options_t) (calls : list call) :
  forallb whole_call calls = true ->
  let sh := run calls (new ts opts, boot) in
  (forall id tm, pending sh.2 !! id = Some tm ->
     timer_callback tm = RetryWatchdog -> timeout sh.1 = Some id) /\
  (forall id id' tm tm',
     pending sh.2 !! id = Some tm -> timer_callback tm = RetryWatchdog ->
     pending sh.2 !! id' = Some tm' -> timer_callback tm' = RetryWatchdog ->
     id = id') /\
  (forall id tm, pending sh.2 !! id = Some tm -> timer_callback tm <> Resolve).
Proof.
  intros Hw sh.
  assert (Hk : timers_kept sh.1 sh.2).
  { apply (run_keeps_pair timers_kept whole_call); [|done|].
    - intros c s h. apply exec_timers_kept.
    - repeat split; simpl;
        [ intros id tm Hl; by rewrite lookup_empty in Hl
        | done
        | intros id tm Hl; by rewrite lookup_empty in Hl ]. }
  destruct Hk as (_ & _ & H3).
  assert (Hheld : forall id tm, pending sh.2 !! id = Some tm ->
            timer_callback tm = RetryWatchdog -> timeout sh.1 = Some id).
  { intros id tm Hl Hcb. specialize (H3 id tm Hl). by rewrite Hcb in H3. }
  split; [done|]. split.
  - intros id id' tm tm' Hl Hcb Hl' Hcb'.
    pose proof (Hheld id tm Hl Hcb). pose proof (Hheld id' tm' Hl' Hcb'). congruence.
  - intros id tm Hl Hcb. specialize (H3 id tm Hl). by rewrite Hcb in H3.
Qed.

(** An attempt and three retries, with a [succeed] in between: the
    watchdog left pending is the sixth timer, the one the operation holds. *)
Lemma retry_timers_never_pile_up_witness :
  RetryOperation.timeout
    (run [CallAttempt "work" None 1000; CallRetry (mkError "E1" "") 2000;
          CallSucceed; CallRetry (mkError "E2" "") 4000;
          CallRetry (mkError "E3" "") 8000]
       (new [of_Z 1000; of_Z 2000; of_Z 4000] (mkOpts false Infinity), boot)).1
  = Some 6%positive.
Proof.
  destruct (retry_timers_never_pile_up [of_Z 1000; of_Z 2000; of_Z 4000]
    (mkOpts false Infinity)
    [CallAttempt "work" None 1000; CallRetry (mkError "E1" "") 2000;
     CallSucceed; CallRetry (mkError "E2" "") 4000;
     CallRetry (mkError "E3" "") 8000] eq_refl) as (H & _ & _).
  apply (H 6%positive (mkTimer RetryWatchdog None)); reflexivity.
Defined.

End PendingFacts.
